(** * Nurl: a command-line HTTP request tool (src/index.js)

    A shallow embedding of the option resolver ([setupYargs]), the request
    executor ([sendRequest]) and the entry point ([main]) of the tool, with
    the properties of its specification stated and settled against it.

    Conventions of the embedding.
    - A JavaScript string is a [string]; each character stands for the code
      unit of the same number, so the strings covered are those of code
      units U+0000..U+00FF.  [toLowerCase] and the UTF-8 encoder are exact
      on that range.
    - The plain objects the program uses as maps ([parsedHeaders],
      [parsedQueries], [res.headers]) are lists of own properties in
      creation order, read through the prototype chain of an object
      literal and enumerated in the order of [for ... in].
    - Terminal styling (chalk) only wraps text in colour codes and is
      elided: a styled line is modelled by its text.
    - The console is the list of the lines printed, oldest first.
    - The platform services the program calls ([new URL], [JSON.parse],
      [fs.readFileSync], [http.request]) are fields of a [platform]
      record.  The option values are texts: a token that the argument
      parser would turn into a number is not among the inputs covered. *)

From Stdlib Require Import String Ascii List Bool Arith NArith QArith Lia.
From Stdlib Require Import Strings.Byte Numbers.DecimalString.
From Stdlib Require Import Sorting.Permutation.
Import ListNotations.

Close Scope Q_scope.
Close Scope Z_scope.
Open Scope nat_scope.
Open Scope list_scope.
Open Scope string_scope.

(** ** Strings *)

Module Str.

(** [s.indexOf(c)] for a one-character pattern; [None] stands for -1. *)
Fixpoint indexOf (c : ascii) (s : string) : option nat :=
  match s with
  | EmptyString => None
  | String a s' =>
      if Ascii.eqb a c then Some 0 else option_map S (indexOf c s')
  end.

(** [s.substring(from)]: the text from position [from] to the end. *)
Definition substring_from (from : nat) (s : string) : string :=
  substring from (String.length s - from) s.

(** [s.split(c)] for a one-character separator: never empty. *)
Fixpoint split (c : ascii) (s : string) : list string :=
  match s with
  | EmptyString => [EmptyString]
  | String a s' =>
      if Ascii.eqb a c then EmptyString :: split c s'
      else match split c s' with
           | p :: ps => String a p :: ps
           | [] => [String a EmptyString]
           end
  end.

(** Lower-casing of one code unit of U+0000..U+00FF: A-Z, and the Latin-1
    capitals U+00C0..U+00DE without the multiplication sign U+00D7. *)
Definition lower_char (a : ascii) : ascii :=
  let n := N_of_ascii a in
  if ((65 <=? n) && (n <=? 90))%N then ascii_of_N (n + 32)
  else if ((192 <=? n) && (n <=? 222) && negb (n =? 215))%N
       then ascii_of_N (n + 32)
  else a.

Fixpoint toLowerCase (s : string) : string :=
  match s with
  | EmptyString => EmptyString
  | String a s' => String (lower_char a) (toLowerCase s')
  end.

(** Decimal text of a natural number, as string concatenation prints it. *)
Definition of_nat (n : nat) : string :=
  NilZero.string_of_uint (Nat.to_uint n).

(** The last character of a string, if any. *)
Fixpoint last_char (s : string) : option ascii :=
  match s with
  | EmptyString => None
  | String a EmptyString => Some a
  | String _ s' => last_char s'
  end.

End Str.

(** ** UTF-8, for [Buffer.byteLength] and [request.write] of a string *)

Module Utf8.

(** The bytes of one code unit of U+0000..U+00FF. *)
Definition encode_char (a : ascii) : list byte :=
  let n := N_of_ascii a in
  if (n <? 128)%N then [byte_of_ascii a]
  else [byte_of_ascii (ascii_of_N (192 + N.shiftr n 6));
        byte_of_ascii (ascii_of_N (128 + N.land n 63))].

Fixpoint encode (s : string) : list byte :=
  match s with
  | EmptyString => []
  | String a s' => (encode_char a ++ encode s')%list
  end.

(** [Buffer.concat(chunks).toString()]: [None] when the bytes are not the
    UTF-8 text of code units U+0000..U+00FF. *)
Fixpoint decode (bs : list byte) : option string :=
  match bs with
  | [] => Some EmptyString
  | b :: rest =>
      let n := Byte.to_N b in
      if (n <? 128)%N
      then option_map (String (ascii_of_byte b)) (decode rest)
      else match rest with
           | b2 :: rest' =>
               let m := Byte.to_N b2 in
               if ((194 <=? n) && (n <=? 195) && (128 <=? m) && (m <=? 191))%N
               then option_map
                      (String (ascii_of_N (N.shiftl (n - 192) 6 + (m - 128))))
                      (decode rest')
               else None
           | [] => None
           end
  end.

End Utf8.

(** [Buffer.byteLength(x)] of a string and of a buffer. *)
Definition byteLength_string (s : string) : nat := List.length (Utf8.encode s).
Definition byteLength_buffer (b : list byte) : nat := List.length b.

(** ** Plain objects used as maps *)

Module Obj.

(** Own enumerable properties, in creation order, keys unique. *)
Definition t (A : Type) : Type := list (string * A).

Definition empty {A} : t A := [].

(** The properties every object literal inherits from [Object.prototype]. *)
Definition prototype_names : list string :=
  [ "constructor"; "__defineGetter__"; "__defineSetter__"; "hasOwnProperty";
    "__lookupGetter__"; "__lookupSetter__"; "isPrototypeOf";
    "propertyIsEnumerable"; "toString"; "valueOf"; "__proto__";
    "toLocaleString" ].

Definition inherited (k : string) : bool :=
  existsb (String.eqb k) prototype_names.

(** The result of reading [o[k]]. *)
Inductive lookup (A : Type) : Type :=
| Own (a : A)
| Inherited (name : string)
| Undefined.
Arguments Own {A} a.
Arguments Inherited {A} name.
Arguments Undefined {A}.

Fixpoint own {A} (o : t A) (k : string) : option A :=
  match o with
  | [] => None
  | (k', v) :: o' => if String.eqb k' k then Some v else own o' k
  end.

(** [o[k]]: the own property, else the inherited one, else [undefined]. *)
Definition get {A} (o : t A) (k : string) : lookup A :=
  match own o k with
  | Some v => Own v
  | None => if inherited k then Inherited k else Undefined
  end.

(** [x !== undefined]. *)
Definition defined {A} (r : lookup A) : bool :=
  match r with
  | Undefined => false
  | _ => true
  end.

(** [x === undefined]. *)
Definition undefined {A} (r : lookup A) : bool := negb (defined r).

Fixpoint upsert {A} (o : t A) (k : string) (v : A) : t A :=
  match o with
  | [] => [(k, v)]
  | (k', v') :: o' =>
      if String.eqb k' k then (k', v) :: o' else (k', v') :: upsert o' k v
  end.

(** [o[k] = v] for a primitive [v] (a string or a number, the only values
    the program stores): an existing own property keeps its place, a new
    one goes last, and the inherited [__proto__] setter ignores a
    primitive, so that key is never created. *)
Definition set {A} (o : t A) (k : string) (v : A) : t A :=
  if String.eqb k "__proto__" then o else upsert o k v.

(** Keys that are array indices: canonical decimal text below 2^32 - 1. *)
Definition digit (a : ascii) : option N :=
  let n := N_of_ascii a in
  if ((48 <=? n) && (n <=? 57))%N then Some (n - 48)%N else None.

Fixpoint decimal (acc : N) (s : string) : option N :=
  match s with
  | EmptyString => Some acc
  | String a s' =>
      match digit a with
      | Some d => decimal (acc * 10 + d)%N s'
      | None => None
      end
  end.

Definition array_index (k : string) : option N :=
  match k with
  | EmptyString => None
  | String "0" EmptyString => Some 0%N
  | String "0" _ => None
  | _ => match decimal 0%N k with
         | Some n => if (n <? 4294967295)%N then Some n else None
         | None => None
         end
  end.

Definition is_index (k : string) : bool :=
  match array_index k with Some _ => true | None => false end.

Definition index_of (k : string) : N :=
  match array_index k with Some n => n | None => 0%N end.

Fixpoint insert_sorted {A} (p : string * A) (l : list (string * A))
  : list (string * A) :=
  match l with
  | [] => [p]
  | q :: l' =>
      if (index_of (fst p) <=? index_of (fst q))%N then p :: q :: l'
      else q :: insert_sorted p l'
  end.

Definition sort_indices {A} (l : list (string * A)) : list (string * A) :=
  fold_right insert_sorted [] l.

(** The properties [for (const k in o)] visits, each with [o[k]]: array
    indices in ascending numeric order, then the other keys in creation
    order.  [Object.prototype] has no enumerable property. *)
Definition entries {A} (o : t A) : list (string * A) :=
  (sort_indices (filter (fun p => is_index (fst p)) o)
   ++ filter (fun p => negb (is_index (fst p))) o)%list.

End Obj.

(** ** Values and records of the program *)

(** A JavaScript number, as far as [isNaN] tells numbers apart. *)
Inductive number : Type :=
| NaN
| Finite (q : Q).

(** The [choices] of the [method] option. *)
Inductive Method : Type := GET | POST | PUT | PATCH | DELETE.

Definition Method_text (m : Method) : string :=
  match m with
  | GET => "GET" | POST => "POST" | PUT => "PUT"
  | PATCH => "PATCH" | DELETE => "DELETE"
  end.

(** [method !== 'GET']. *)
Definition not_GET (m : Method) : bool :=
  negb (String.eqb (Method_text m) "GET").

(** A header value: the text of a [key:value] option, or the number that
    [Buffer.byteLength] returns. *)
Inductive hvalue : Type :=
| HStr (s : string)
| HNum (n : nat).

(** What a call returns or throws; [Throw] carries the error's message. *)
Inductive completion (A : Type) : Type :=
| Return (a : A)
| Throw (message : string).
Arguments Return {A} a.
Arguments Throw {A} message.

Module URL.
(** The fields of a parsed [URL] object. *)
Record t : Type := mk
  { hostname : string;
    pathname : string;
    search : string }.
End URL.

Module Request.
(** The options given to [http.request], with what was written to the
    request and whether [end] was called. *)
Record t : Type := mk
  { hostname : string;
    port : string;
    path : string;
    headers : Obj.t hvalue;
    method : Method;
    timeout : option number;
    written : list (list byte);
    ended : bool }.

Definition write (r : t) (chunk : list byte) : t :=
  mk (hostname r) (port r) (path r) (headers r) (method r) (timeout r)
     (written r ++ [chunk])%list (ended r).

Definition end_ (r : t) : t :=
  mk (hostname r) (port r) (path r) (headers r) (method r) (timeout r)
     (written r) true.
End Request.

(** The services of the platform: [new URL(s)], whether [JSON.parse(s)]
    returns, [fs.readFileSync(path.resolve(p))], and whether
    [http.request(options, callback)] returns the request or throws (as it
    does for a path with a space, a negative timeout or a header name that
    is no token); the argument of [http_request] is the request with the
    options, nothing written and not ended. *)
Record platform : Type :=
  { URL_new : string -> completion URL.t;
    JSON_parse_ok : string -> bool;
    readFileSync : string -> completion (list byte);
    http_request : Request.t -> completion unit }.

Module Raw.
(** The options as the argument parser hands them to [coerce] and
    [check]: [None] is [undefined].  [body] is the value of an undeclared
    [--body] flag, which the parser passes through; [data], [json], [file]
    and [body] are strings when present, and each option is given at most
    once, apart from the arrays [headers] and [queries], whose elements
    are strings.  [queries_first] tells that [--queries] comes before
    [--headers] on the command line: the parser runs the coercions in the
    order of the command line. *)
Record t : Type := mk
  { positional : list string;
    method : Method;
    headers : list string;
    queries : list string;
    data : option string;
    json : option string;
    file : option string;
    timeout : option number;
    body : option string;
    queries_first : bool }.
End Raw.

Module Args.
(** The result of [yargs.parse()]: [headers] and [queries] coerced. *)
Record t : Type := mk
  { positional : list string;
    method : Method;
    headers : Obj.t hvalue;
    queries : Obj.t string;
    data : option string;
    json : option string;
    file : option string;
    timeout : option number;
    body : option string }.
End Args.

(** ** Console output and exceptions *)

(** A computation that prints lines and returns or throws. *)
Definition M (A : Type) : Type := list string -> completion A * list string.

Definition ret {A} (a : A) : M A := fun out => (Return a, out).

Definition throw {A} (message : string) : M A :=
  fun out => (Throw message, out).

Definition bind {A B} (m : M A) (k : A -> M B) : M B :=
  fun out =>
    match m out with
    | (Return a, out') => k a out'
    | (Throw e, out') => (Throw e, out')
    end.

(** [console.log(line)]. *)
Definition console_log (line : string) : M unit :=
  fun out => (Return tt, (out ++ [line])%list).

Notation "x <- m ;; k" := (bind m (fun x => k))
  (at level 61, m at next level, right associativity).
Notation "m ;;; k" := (bind m (fun _ => k))
  (at level 61, right associativity).

Definition logWARN (text : string) : M unit :=
  console_log ("WARNING" ++ ": " ++ text).

Definition logERRORWrapper (text : string) : string :=
  "ERROR" ++ ": " ++ text.

(** [for (const x of xs) body]. *)
Fixpoint for_of {A S} (xs : list A) (body : S -> A -> M S) (s : S) : M S :=
  match xs with
  | [] => ret s
  | x :: xs' => s' <- body s x ;; for_of xs' body s'
  end.

(** ** The option resolver *)

(** [[\w-%]]: a word character, a hyphen or a percent sign. *)
Definition class_char (a : ascii) : bool :=
  let n := N_of_ascii a in
  (((48 <=? n) && (n <=? 57)) || ((65 <=? n) && (n <=? 90))
   || ((97 <=? n) && (n <=? 122)) || (n =? 95) || (n =? 45) || (n =? 37))%N.

Inductive rx_state : Type := KeyStart | Key | Value.

(** [urlencodedRegex.test(s)].  The pattern is anchored at both ends and
    reads: a pair, then any number of [&] followed by a pair, where a pair
    is one or more class characters, [=], and any number of class
    characters.  The class holds neither [=] nor [&], so the match is
    decided character by character. *)
Fixpoint urlencoded_run (st : rx_state) (s : string) : bool :=
  match s with
  | EmptyString => match st with Value => true | _ => false end
  | String a s' =>
      match st with
      | KeyStart => if class_char a then urlencoded_run Key s' else false
      | Key =>
          if class_char a then urlencoded_run Key s'
          else if Ascii.eqb a "=" then urlencoded_run Value s' else false
      | Value =>
          if class_char a then urlencoded_run Value s'
          else if Ascii.eqb a "&" then urlencoded_run KeyStart s' else false
      end
  end.

Definition urlencodedRegex_test (s : string) : bool := urlencoded_run KeyStart s.

(** [x !== undefined] for an option value. *)
Definition given {A} (x : option A) : bool :=
  match x with Some _ => true | None => false end.

(** The body of the loop of the [headers] coercion. *)
Definition headers_step (parsedHeaders : Obj.t hvalue) (header : string)
  : M (Obj.t hvalue) :=
  match Str.indexOf ":" header with
  | None => logWARN ("Invalid header " ++ header) ;;; ret parsedHeaders
  | Some splitPoint =>
      let key := Str.toLowerCase (substring 0 splitPoint header) in
      let value := Str.substring_from (splitPoint + 1) header in
      (if Obj.defined (Obj.get parsedHeaders key)
       then logWARN ("Overwriting header key for " ++ key)
       else ret tt) ;;;
      ret (Obj.set parsedHeaders key (HStr value))
  end.

Definition coerce_headers (headers : list string) : M (Obj.t hvalue) :=
  for_of headers headers_step Obj.empty.

(** The body of the inner loop of the [queries] coercion. *)
Definition queries_step (parsedQueries : Obj.t string) (part : string)
  : M (Obj.t string) :=
  match Str.indexOf "=" part with
  | None => logWARN ("Invalid query parameter " ++ part) ;;; ret parsedQueries
  | Some splitPoint =>
      let key := substring 0 splitPoint part in
      let value := Str.substring_from (splitPoint + 1) part in
      (if Obj.defined (Obj.get parsedQueries key)
       then logWARN ("Overwriting query key for " ++ key)
       else ret tt) ;;;
      ret (Obj.set parsedQueries key value)
  end.

Definition coerce_queries (queries : list string) : M (Obj.t string) :=
  for_of queries
    (fun parsedQueries query =>
       for_of (Str.split "&" query) queries_step parsedQueries)
    Obj.empty.

(** The first [check]: exactly one positional argument, a valid URL. *)
Definition check_url (P : platform) (argv : Args.t) : M unit :=
  match Args.positional argv with
  | [u] =>
      match URL_new P u with
      | Throw message => throw (logERRORWrapper message)
      | Return _ => ret tt
      end
  | _ => throw (logERRORWrapper "You must provide a url")
  end.

(** The [check] registered with the [data] option. *)
Definition check_data (argv : Args.t) : M unit :=
  if given (Args.data argv)
     && (given (Args.json argv) || given (Args.file argv))
  then throw (logERRORWrapper
         "Simultaneous usage of data and json or data and file is not permitted")
  else
    match Args.data argv with
    | Some data =>
        if negb (urlencodedRegex_test data)
        then logWARN "Invalid urlencoded body!"
        else ret tt
    | None => ret tt
    end.

(** The [check] registered with the [json] option. *)
Definition check_json (P : platform) (argv : Args.t) : M unit :=
  if given (Args.json argv)
     && (given (Args.data argv) || given (Args.file argv))
  then throw (logERRORWrapper
         "Simultaneous usage of json and data or json and file is not permitted")
  else
    match Args.json argv with
    | Some json =>
        if JSON_parse_ok P json then ret tt else logWARN "Invalid JSON body"
    | None => ret tt
    end.

(** The [check] registered with the [file] option. *)
Definition check_file (P : platform) (argv : Args.t) : M unit :=
  if given (Args.file argv)
     && (given (Args.data argv) || given (Args.json argv))
  then throw (logERRORWrapper
         "Simultaneous usage of file and data or file and json is not permitted")
  else
    match Args.file argv with
    | Some file =>
        match readFileSync P file with
        | Throw message => throw (logERRORWrapper message)
        | Return _ => ret tt
        end
    | None => ret tt
    end.

(** [isNaN(timeout)]: [undefined] converts to the number NaN. *)
Definition isNaN (timeout : option number) : bool :=
  match timeout with
  | None => true
  | Some NaN => true
  | Some (Finite _) => false
  end.

(** The [check] registered with the [timeout] option. *)
Definition check_timeout (argv : Args.t) : M unit :=
  if isNaN (Args.timeout argv)
  then throw (logERRORWrapper "Timeout must be a number")
  else ret tt.

(** The checks, in the order of their registration.  A check that throws
    ends the parse: the argument parser reports the message and exits. *)
Definition checks (P : platform) (argv : Args.t) : M Args.t :=
  check_url P argv ;;;
  check_data argv ;;;
  check_json P argv ;;;
  check_file P argv ;;;
  check_timeout argv ;;;
  ret argv.

(** The two coercions, run while the arguments are parsed, in the order
    of the command line. *)
Definition coercions (raw : Raw.t) : M (Obj.t hvalue * Obj.t string) :=
  if Raw.queries_first raw then
    queries <- coerce_queries (Raw.queries raw) ;;
    headers <- coerce_headers (Raw.headers raw) ;;
    ret (headers, queries)
  else
    headers <- coerce_headers (Raw.headers raw) ;;
    queries <- coerce_queries (Raw.queries raw) ;;
    ret (headers, queries).

(** [setupYargs()]: the coercions run while the arguments are parsed, then
    the checks run on the parsed arguments. *)
Definition setupYargs (P : platform) (raw : Raw.t) : M Args.t :=
  hq <- coercions raw ;;
  checks P
    (Args.mk (Raw.positional raw) (Raw.method raw) (fst hq) (snd hq)
             (Raw.data raw) (Raw.json raw) (Raw.file raw) (Raw.timeout raw)
             (Raw.body raw)).

(** ** The request executor *)

(** The truth value of a string or [undefined] in a condition. *)
Definition truthy (x : option string) : bool :=
  match x with
  | Some s => negb (String.eqb s "")
  | None => false
  end.

Definition text (x : option string) : string :=
  match x with Some s => s | None => "" end.

(** [if (headers[k] === undefined) headers[k] = v]. *)
Definition default_header (headers : Obj.t hvalue) (k : string) (v : hvalue)
  : Obj.t hvalue :=
  if Obj.undefined (Obj.get headers k) then Obj.set headers k v else headers.

(** [if (headers['content-length'] === undefined && method !== 'GET')
    headers['content-length'] = n]. *)
Definition default_length (headers : Obj.t hvalue) (method : Method) (n : nat)
  : Obj.t hvalue :=
  if Obj.undefined (Obj.get headers "content-length") && not_GET method
  then Obj.set headers "content-length" (HNum n)
  else headers.

(** [queries.length !== 0]: the property is a string or [undefined],
    never the number 0. *)
Definition length_is_not_0 (queries : Obj.t string) : bool :=
  match Obj.get queries "length" with
  | Obj.Own _ => true
  | Obj.Inherited _ => true
  | Obj.Undefined => true
  end.

(** The path of the request (lines 161-168). *)
Definition requestPath (url : URL.t) (queries : Obj.t string) : string :=
  let requestPath := URL.pathname url in
  if length_is_not_0 queries then
    let requestPath := requestPath ++ "?" in
    let requestPath :=
      fold_left
        (fun requestPath kv => requestPath ++ fst kv ++ "=" ++ snd kv ++ "&")
        (Obj.entries queries) requestPath in
    substring 0 (String.length requestPath - 1) requestPath
  else requestPath.

(** The first part of [sendRequest] (lines 148-159): the file read when
    the file is the active body, and the headers with their defaults.
    [Throw] is the exception of [fs.readFileSync]. *)
Definition prepare (P : platform) (method : Method) (headers : Obj.t hvalue)
    (body json filePath : option string)
  : M (option (list byte) * Obj.t hvalue) :=
  if truthy body then
    let headers :=
      default_header headers "content-type"
        (HStr "application/x-www-form-urlencoded") in
    ret (None, default_length headers method (byteLength_string (text body)))
  else if truthy json then
    let headers :=
      default_header headers "content-type" (HStr "application/json") in
    ret (None, default_length headers method (byteLength_string (text json)))
  else if truthy filePath then
    match readFileSync P (text filePath) with
    | Throw message => throw message
    | Return file =>
        let headers :=
          default_header headers "content-type"
            (HStr "application/octet-stream") in
        ret (Some file, default_length headers method (byteLength_buffer file))
    end
  else ret (None, headers).

(** [sendRequest(url, method, headers, queries, body, json, filePath,
    timeout)] up to [request.end()].  [Throw] is the rejection of the
    promise when [fs.readFileSync] throws, outside the [try].  Inside the
    [try], [http.request] returns the request or throws; an exception is
    caught, its message printed, and no request is made: the result is
    then [None]. *)
Definition sendRequest (P : platform) (url : URL.t) (method : Method)
    (headers : Obj.t hvalue) (queries : Obj.t string)
    (body json filePath : option string) (timeout : option number)
  : M (option Request.t) :=
  fh <- prepare P method headers body json filePath ;;
  let file : option (list byte) := fst fh in
  let headers := snd fh in
  let request :=
    Request.mk (URL.hostname url) "80" (requestPath url queries) headers
               method timeout [] false in
  match http_request P request with
  | Throw message => console_log (logERRORWrapper message) ;;; ret None
  | Return _ =>
      let request :=
        if truthy body then Request.write request (Utf8.encode (text body))
        else if truthy json
        then Request.write request (Utf8.encode (text json))
        else match file with
             | Some file => Request.write request file
             | None => request
             end in
      ret (Some (Request.end_ request))
  end.

(** ** The entry point *)

(** What an invocation leaves behind: the console and the requests made. *)
Record outcome : Type :=
  { console : list string;
    requests : list Request.t }.

(** [main()].  A failed check is reported by the argument parser, which
    prints the message and exits; an exception of [new URL] reaches the
    [uncaughtException] handler, and so does the rejection of
    [sendRequest], which the runtime raises as an uncaught exception. *)
Definition main (P : platform) (raw : Raw.t) : outcome :=
  match setupYargs P raw [] with
  | (Throw message, out) =>
      {| console := (out ++ [message])%list; requests := [] |}
  | (Return args, out) =>
      match URL_new P (nth 0 (Args.positional args) "undefined") with
      | Throw message =>
          {| console := (out ++ [logERRORWrapper message])%list;
             requests := [] |}
      | Return url =>
          match sendRequest P url (Args.method args) (Args.headers args)
                  (Args.queries args) (Args.body args) (Args.json args)
                  (Args.file args) (Args.timeout args) out with
          | (Return (Some request), out') =>
              {| console := out'; requests := [request] |}
          | (Return None, out') => {| console := out'; requests := [] |}
          | (Throw message, out') =>
              {| console := (out' ++ [logERRORWrapper message])%list;
                 requests := [] |}
          end
      end
  end.

(** ** The response handler *)

Module Response.
(** The [http.IncomingMessage] given to the callback of [http.request].
    [method] is [null] ([None]) unless a server-side parser fills it; the
    header values are taken to be strings. *)
Record t : Type := mk
  { method : option string;
    statusCode : nat;
    statusMessage : string;
    headers : Obj.t string }.

(** A response as the HTTP client delivers it: [method] is left [null]. *)
Definition of_client (statusCode : nat) (statusMessage : string)
    (headers : Obj.t string) : t :=
  mk None statusCode statusMessage headers.
End Response.

(** The events of the response stream. *)
Inductive event : Type :=
| Data (chunk : list byte)
| End_
| Error (message : string).

(** [': ' + x] for a string or [null]. *)
Definition text_or_null (x : option string) : string :=
  match x with Some s => s | None => "null" end.

(** The listener of ['end'] (lines 185-196).  [None] when the body is not
    text of the code units covered. *)
Definition on_end (res : Response.t) (rawBody : list (list byte))
  : option (M unit) :=
  match Utf8.decode (List.concat rawBody) with
  | None => None
  | Some body =>
      Some (
        console_log "" ;;;
        console_log "-----------------RESPONSE-------------------" ;;;
        console_log ("METHOD" ++ ": " ++ text_or_null (Response.method res)) ;;;
        console_log ("STATUS" ++ ": " ++ Str.of_nat (Response.statusCode res)
                     ++ " - " ++ Response.statusMessage res) ;;;
        console_log ("HEADERS" ++ ": ") ;;;
        for_of (Obj.entries (Response.headers res))
          (fun _ kv =>
             console_log (String "009" (fst kv ++ ": " ++ snd kv)))
          tt ;;;
        console_log ("BODY" ++ ": " ++ body))
  end.

(** The callback of [http.request] run over the events of a response:
    the chunks are collected and the listeners print. *)
Fixpoint on_response (res : Response.t) (rawBody : list (list byte))
    (events : list event) (out : list string) : option (list string) :=
  match events with
  | [] => Some out
  | Data chunk :: events' =>
      on_response res (rawBody ++ [chunk])%list events' out
  | End_ :: events' =>
      match on_end res rawBody with
      | Some print => on_response res rawBody events' (snd (print out))
      | None => None
      end
  | Error message :: events' =>
      on_response res rawBody events'
        (snd (console_log (logERRORWrapper message) out))
  end.

(** ** Reference forms of the request path *)

(** The text of one query parameter. *)
Definition pair_text (kv : string * string) : string :=
  fst kv ++ "=" ++ snd kv.

(** The pairs joined by [&]. *)
Definition query_text (pairs : list (string * string)) : string :=
  String.concat "&" (map pair_text pairs).

(** What the loop of [requestPath] appends. *)
Fixpoint loop_text (pairs : list (string * string)) : string :=
  match pairs with
  | [] => ""
  | kv :: pairs' => fst kv ++ "=" ++ snd kv ++ "&" ++ loop_text pairs'
  end.

(** The suffix of the path after the pathname. *)
Definition query_suffix (pairs : list (string * string)) : string :=
  match pairs with
  | [] => ""
  | _ => "?" ++ query_text pairs
  end.

(** ** Reference forms of the claims on the request body *)

(** The JSON text [{"a":1}]. *)
Definition json_a1 : string :=
  String "{" (String "034" (String "a" (String "034" ":1}"))).

(** The serialized body of the source that is set, in the order
    urlencoded, JSON, file: a source is set when it is not [undefined]. *)
Definition body_source (P : platform) (body json filePath : option string)
  : option (list byte) :=
  match body, json, filePath with
  | Some b, _, _ => Some (Utf8.encode b)
  | None, Some j, _ => Some (Utf8.encode j)
  | None, None, Some f =>
      match readFileSync P f with
      | Return bytes => Some bytes
      | Throw _ => None
      end
  | None, None, None => None
  end.

(** The serialized body of the source the executor takes as active: the
    first of urlencoded, JSON and file that is a non-empty string. *)
Definition active_body (P : platform) (body json filePath : option string)
  : option (list byte) :=
  if truthy body then Some (Utf8.encode (text body))
  else if truthy json then Some (Utf8.encode (text json))
  else if truthy filePath then
    match readFileSync P (text filePath) with
    | Return bytes => Some bytes
    | Throw _ => None
    end
  else None.

(** What the [try] of [sendRequest] comes to for the request [options]
    and the chunks to write: when [http.request] returns, the request with
    the chunks written and ended; when it throws, the message printed as
    an error and no request. *)
Definition attempt (P : platform) (options : Request.t)
    (chunks : list (list byte)) : M (option Request.t) :=
  match http_request P options with
  | Throw message => console_log (logERRORWrapper message) ;;; ret None
  | Return _ =>
      ret (Some (Request.end_ (fold_left Request.write chunks options)))
  end.

(** The claim on [content-length], for a notion [source] of the body that
    is set: [sendRequest] attempts a request with the body as its one
    chunk, whose options, nothing written yet, keep for GET the header as
    the user gave it, and have for another method without a header of the
    user the byte length of the body. *)
Definition content_length_default
    (source : platform -> option string -> option string -> option string ->
              option (list byte)) : Prop :=
  forall (P : platform) (url : URL.t) (method : Method)
         (headers : Obj.t hvalue) (queries : Obj.t string)
         (body json filePath : option string) (timeout : option number)
         (out : list string) (bytes : list byte),
    source P body json filePath = Some bytes ->
    exists options,
      sendRequest P url method headers queries body json filePath timeout out
      = attempt P options [bytes] out
      /\ Request.written options = [] /\ Request.ended options = false
      /\ (method = GET ->
          Obj.get (Request.headers options) "content-length"
          = Obj.get headers "content-length")
      /\ (method <> GET ->
          Obj.get headers "content-length" = Obj.Undefined ->
          Obj.get (Request.headers options) "content-length"
          = Obj.Own (HNum (List.length bytes))).

(** The request [sendRequest] attempts when no body is active: the
    options with the headers of the user. *)
Definition bare_request (url : URL.t) (method : Method)
    (headers : Obj.t hvalue) (queries : Obj.t string)
    (timeout : option number) : Request.t :=
  Request.mk (URL.hostname url) "80" (requestPath url queries) headers method
             timeout [] false.

(** ** Reference forms of the claims on validation *)

(** Two or more of [data], [json] and [file] are supplied. *)
Definition conflicting (raw : Raw.t) : bool :=
  (given (Raw.data raw) && given (Raw.json raw))
  || (given (Raw.data raw) && given (Raw.file raw))
  || (given (Raw.json raw) && given (Raw.file raw)).

(** The messages of the errors on conflicting body options. *)
Definition ConflictingOptions (message : string) : Prop :=
  In message
    [ logERRORWrapper
        "Simultaneous usage of data and json or data and file is not permitted";
      logERRORWrapper
        "Simultaneous usage of json and data or json and file is not permitted";
      logERRORWrapper
        "Simultaneous usage of file and data or file and json is not permitted" ].

(** The positional arguments are one valid URL. *)
Definition url_valid (P : platform) (raw : Raw.t) : Prop :=
  exists u url, Raw.positional raw = [u] /\ URL_new P u = Return url.

(** The claim on conflicting body options, for the invocations in
    [scope]: validation fails, with a conflicting-options error for an
    invocation in scope, and no request is made. *)
Definition conflicting_options_rejected
    (scope : platform -> Raw.t -> Prop) : Prop :=
  forall (P : platform) (raw : Raw.t),
    conflicting raw = true ->
    (exists message out,
        setupYargs P raw [] = (Throw message, out)
        /\ (scope P raw -> ConflictingOptions message))
    /\ requests (main P raw) = [].

(** The path ends in [?] or [&]. *)
Definition ends_in_separator (s : string) : bool :=
  match Str.last_char s with
  | Some c => Ascii.eqb c "?" || Ascii.eqb c "&"
  | None => false
  end.

(** ** Reference forms of the claim on headers *)

(** The key the coercion stores a header under, if the header has a
    colon. *)
Definition header_key (header : string) : option string :=
  match Str.indexOf ":" header with
  | None => None
  | Some n => Some (Str.toLowerCase (substring 0 n header))
  end.

(** The line printed when the key [k] is taken to be overwritten. *)
Definition overwrite_warning (k : string) : string :=
  "WARNING: Overwriting header key for " ++ k.

(** How often that line is among the lines [w]. *)
Definition overwrite_warnings (k : string) (w : list string) : nat :=
  count_occ string_dec w (overwrite_warning k).

(** ** Example invocations *)

Module Example.

(** An [http.request] that throws on a path with a space and on a
    negative timeout, and returns otherwise. *)
Definition request_or_throw (r : Request.t) : completion unit :=
  match Str.indexOf " " (Request.path r) with
  | Some _ => Throw "Request path contains unescaped characters"
  | None =>
      match Request.timeout r with
      | Some (Finite q) =>
          if (Qnum q <? 0)%Z then Throw "The value of timeout is out of range"
          else Return tt
      | _ => Return tt
      end
  end.

(** A platform on which [http://host/p?x=1] and [http://host/search] are
    valid URLs, every text is valid JSON and no file is readable. *)
Definition P : platform :=
  {| URL_new := fun s =>
       if String.eqb s "http://host/p?x=1"
       then Return (URL.mk "host" "/p" "?x=1")
       else if String.eqb s "http://host/search"
       then Return (URL.mk "host" "/search" "")
       else Throw "Invalid URL";
     JSON_parse_ok := fun _ => true;
     readFileSync := fun _ => Throw "ENOENT: no such file or directory";
     http_request := request_or_throw |}.

(** The same platform with a file [hello.txt] that holds [hello]. *)
Definition P_hello : platform :=
  {| URL_new := URL_new P;
     JSON_parse_ok := JSON_parse_ok P;
     readFileSync := fun _ => Return (Utf8.encode "hello");
     http_request := request_or_throw |}.

(** A timeout of five seconds. *)
Definition five : option number := Some (Finite (5 # 1)).

(** [nurl http://host/p?x=1]. *)
Definition url_only : Raw.t :=
  Raw.mk ["http://host/p?x=1"] GET [] [] None None None None None false.

(** [nurl http://host/p?x=1 --timeout 5]. *)
Definition with_timeout : Raw.t :=
  Raw.mk ["http://host/p?x=1"] GET [] [] None None None five None false.

(** [nurl http://host/p?x=1 --method POST --data a=1 --timeout 5]. *)
Definition with_data : Raw.t :=
  Raw.mk ["http://host/p?x=1"] POST [] [] (Some "a=1") None None five None
         false.

(** [nurl http://host/p?x=1 --method POST --data "a b" --timeout 5]. *)
Definition with_odd_data : Raw.t :=
  Raw.mk ["http://host/p?x=1"] POST [] [] (Some "a b") None None five None
         false.

(** [nurl --data a=1 --json {} --timeout 5]: no URL. *)
Definition conflict_no_url : Raw.t :=
  Raw.mk [] GET [] [] (Some "a=1") (Some "{}") None five None false.

(** [nurl http://host/p?x=1 --data a=1 --json {} --timeout 5]. *)
Definition conflict : Raw.t :=
  Raw.mk ["http://host/p?x=1"] GET [] [] (Some "a=1") (Some "{}") None five
         None false.

(** [nurl http://host/p?x=1 --method POST --json {"a":1} --timeout 5]. *)
Definition with_json : Raw.t :=
  Raw.mk ["http://host/p?x=1"] POST [] [] None (Some json_a1) None five None
         false.

(** [nurl http://host/p?x=1 --method POST --file body.bin --timeout 5]. *)
Definition missing_file : Raw.t :=
  Raw.mk ["http://host/p?x=1"] POST [] [] None None (Some "body.bin") five
         None false.

(** [nurl http://host/p?x=1 --timeout -1]. *)
Definition negative_timeout : Raw.t :=
  Raw.mk ["http://host/p?x=1"] GET [] [] None None None
         (Some (Finite (-1 # 1))) None false.

(** [nurl http://host/search --queries "a=b c" --headers oops --timeout 5]:
    the queries come first. *)
Definition spaced_query : Raw.t :=
  Raw.mk ["http://host/search"] GET ["oops"] ["a=b c&d"] None None None five
         None true.

(** The body [hello] as bytes. *)
Definition hello : list byte := Utf8.encode "hello".

End Example.

(** ** Reference forms for the coercions *)

(** The value the coercion stores for a header with a colon at [n]. *)
Definition header_value (header : string) : string :=
  match Str.indexOf ":" header with
  | None => ""
  | Some n => Str.substring_from (n + 1) header
  end.

(** The value of the last header of [headers] stored under the key [k],
    starting from [acc]. *)
Fixpoint last_header (k : string) (headers : list string)
    (acc : option string) : option string :=
  match headers with
  | [] => acc
  | x :: headers' =>
      last_header k headers'
        match header_key x with
        | Some k' => if String.eqb k' k then Some (header_value x) else acc
        | None => acc
        end
  end.

(** The key and the value the coercion stores for a query part with an
    equals sign. *)
Definition query_key (part : string) : option string :=
  match Str.indexOf "=" part with
  | None => None
  | Some n => Some (substring 0 n part)
  end.

Definition query_value (part : string) : string :=
  match Str.indexOf "=" part with
  | None => ""
  | Some n => Str.substring_from (n + 1) part
  end.

(** The parts of all the query strings, in order. *)
Definition query_parts (queries : list string) : list string :=
  flat_map (Str.split "&") queries.

(** The value of the last part stored under the key [k]. *)
Fixpoint last_query (k : string) (parts : list string) (acc : option string)
  : option string :=
  match parts with
  | [] => acc
  | x :: parts' =>
      last_query k parts'
        match query_key x with
        | Some k' => if String.eqb k' k then Some (query_value x) else acc
        | None => acc
        end
  end.

(** The character [c] does not occur in [s]. *)
Definition free_of (c : ascii) (s : string) : Prop := Str.indexOf c s = None.

(** A mapping whose keys are unique, none of them [__proto__], and whose
    properties all satisfy [Q]. *)
Definition well_formed {A} (Q : string * A -> Prop) (o : Obj.t A) : Prop :=
  NoDup (map fst o) /\ ~ In "__proto__" (map fst o) /\ Forall Q o.

(** A pair that survives the coercion and the path unchanged and in
    place: its key holds neither [=] nor [&], is not a name of
    [Object.prototype] and is not an array index; its value holds no
    [&]. *)
Definition plain_pair (p : string * string) : Prop :=
  free_of "=" (fst p) /\ free_of "&" (fst p) /\ free_of "&" (snd p)
  /\ Obj.inherited (fst p) = false /\ Obj.is_index (fst p) = false.

(** ** Reference forms for the request executor *)

(** The content type of the body source the executor takes as active. *)
Definition body_kind (body json filePath : option string) : option string :=
  if truthy body then Some "application/x-www-form-urlencoded"
  else if truthy json then Some "application/json"
  else if truthy filePath then Some "application/octet-stream"
  else None.

(** ** Reference forms for the response handler *)

(** The lines of a rendered response with the decoded body [body]. *)
Definition rendering (res : Response.t) (body : string) : list string :=
  ([ "";
     "-----------------RESPONSE-------------------";
     ("METHOD: " ++ text_or_null (Response.method res))%string;
     ("STATUS: " ++ Str.of_nat (Response.statusCode res) ++ " - "
        ++ Response.statusMessage res)%string;
     "HEADERS: " ]
   ++ map (fun kv => String "009" (fst kv ++ ": " ++ snd kv)%string)
        (Obj.entries (Response.headers res))
   ++ [ ("BODY: " ++ body)%string ])%list.

(** ** Reference forms for the urlencoded pattern *)

(** Every character of the text is in the class of the pattern. *)
Fixpoint class_string (s : string) : bool :=
  match s with
  | EmptyString => true
  | String a s' => class_char a && class_string s'
  end.

(** A pair of the pattern: a non-empty key and a value of class
    characters. *)
Definition urlencoded_pair (p : string * string) : Prop :=
  fst p <> "" /\ class_string (fst p) = true /\ class_string (snd p) = true.

(** The pairs, each after a [&]. *)
Fixpoint more_pairs (pairs : list (string * string)) : string :=
  match pairs with
  | [] => ""
  | p :: pairs' => "&" ++ pair_text p ++ more_pairs pairs'
  end.

(** * Properties *)

(** ** Strings *)

Section StringFacts.

Lemma append_assoc (a b c : string) : (a ++ b) ++ c = a ++ (b ++ c).
Proof.
  induction a as [|x a IH]; simpl; [reflexivity | now rewrite IH].
Qed.

Lemma append_empty_r (a : string) : a ++ "" = a.
Proof.
  induction a as [|x a IH]; simpl; [reflexivity | now rewrite IH].
Qed.

Lemma length_append (a b : string) :
  String.length (a ++ b) = String.length a + String.length b.
Proof.
  induction a as [|x a IH]; simpl; [reflexivity | now rewrite IH].
Qed.

Lemma substring_prefix (a b : string) :
  substring 0 (String.length a) (a ++ b) = a.
Proof.
  induction a as [|x a IH]; simpl.
  - destruct b; reflexivity.
  - now rewrite IH.
Qed.

(** [s.substring(0, s.length - 1)] removes the last character. *)
Lemma substring_drop_last (a : string) (c : ascii) :
  let s := a ++ String c "" in
  substring 0 (String.length s - 1) s = a.
Proof.
  cbv zeta. rewrite length_append. simpl.
  replace (String.length a + 1 - 1) with (String.length a) by lia.
  apply substring_prefix.
Qed.

Lemma last_char_append (a : string) (c : ascii) (b : string) :
  Str.last_char (a ++ String c b) = Str.last_char (String c b).
Proof.
  induction a as [|x a IH]; [reflexivity|].
  change (Str.last_char (String x (a ++ String c b))
          = Str.last_char (String c b)).
  rewrite <- IH. simpl. destruct (a ++ String c b) eqn:E; [|reflexivity].
  destruct a; discriminate.
Qed.

End StringFacts.

(** Appends re-associated to the right and computed on literals. *)
Ltac string_normal :=
  repeat first [rewrite append_assoc | progress cbn [append]].

(** ** The request path *)

Lemma path_loop (pairs : list (string * string)) (s : string) :
  fold_left (fun requestPath kv => requestPath ++ fst kv ++ "=" ++ snd kv ++ "&")
    pairs s
  = s ++ loop_text pairs.
Proof.
  revert s. induction pairs as [|kv pairs IH]; intros s; cbn [fold_left loop_text].
  - now rewrite append_empty_r.
  - rewrite IH. string_normal. reflexivity.
Qed.

Lemma loop_text_join (kv : string * string) (pairs : list (string * string)) :
  loop_text (kv :: pairs) = query_text (kv :: pairs) ++ "&".
Proof.
  revert kv. induction pairs as [|kv' pairs IH]; intros kv.
  - unfold query_text, pair_text. cbn [loop_text map String.concat].
    string_normal. reflexivity.
  - change (loop_text (kv :: kv' :: pairs))
      with (fst kv ++ "=" ++ snd kv ++ "&" ++ loop_text (kv' :: pairs)).
    rewrite IH.
    change (query_text (kv :: kv' :: pairs))
      with (pair_text kv ++ "&" ++ query_text (kv' :: pairs)).
    unfold pair_text. string_normal. reflexivity.
Qed.

Lemma requestPath_eq (url : URL.t) (queries : Obj.t string) :
  requestPath url queries
  = URL.pathname url ++ query_suffix (Obj.entries queries).
Proof.
  unfold requestPath.
  replace (length_is_not_0 queries) with true
    by (unfold length_is_not_0; destruct (Obj.get queries "length"); reflexivity).
  rewrite path_loop.
  destruct (Obj.entries queries) as [|kv pairs].
  - simpl loop_text. rewrite !append_empty_r.
    apply (substring_drop_last (URL.pathname url) "?").
  - rewrite loop_text_join. unfold query_suffix.
    rewrite <- !append_assoc.
    apply (substring_drop_last _ "&").
Qed.

(** ** Objects *)

Section ObjectFacts.
Context {A : Type}.
Implicit Types (o : Obj.t A) (k : string) (v : A).

Lemma own_upsert_same o k v : Obj.own (Obj.upsert o k v) k = Some v.
Proof.
  induction o as [|[k' v'] o IH]; simpl.
  - now rewrite String.eqb_refl.
  - destruct (String.eqb k' k) eqn:E; simpl; rewrite E; auto.
Qed.

Lemma own_upsert_other o k k' v :
  k' <> k -> Obj.own (Obj.upsert o k v) k' = Obj.own o k'.
Proof.
  intros N. induction o as [|[k0 v0] o IH]; simpl.
  - apply String.eqb_neq in N. rewrite String.eqb_sym. now rewrite N.
  - destruct (String.eqb k0 k) eqn:E; simpl.
    + apply String.eqb_eq in E. subst k0.
      destruct (String.eqb k k') eqn:E'; [|reflexivity].
      apply String.eqb_eq in E'. now subst.
    + now rewrite IH.
Qed.

Lemma get_set_same o k v :
  k <> "__proto__" -> Obj.get (Obj.set o k v) k = Obj.Own v.
Proof.
  intros N. unfold Obj.get, Obj.set.
  apply String.eqb_neq in N. rewrite N. now rewrite own_upsert_same.
Qed.

Lemma get_set_other o k k' v :
  k' <> k -> Obj.get (Obj.set o k v) k' = Obj.get o k'.
Proof.
  intros N. unfold Obj.get, Obj.set.
  destruct (String.eqb k "__proto__"); [reflexivity|].
  now rewrite own_upsert_other.
Qed.

End ObjectFacts.

(** ** Header defaults *)

Lemma default_header_other (h : Obj.t hvalue) (k k' : string) (v : hvalue) :
  k' <> k -> Obj.get (default_header h k v) k' = Obj.get h k'.
Proof.
  intros N. unfold default_header.
  destruct (Obj.undefined (Obj.get h k)); [|reflexivity].
  now apply get_set_other.
Qed.

Lemma default_header_fresh (h : Obj.t hvalue) (k : string) (v : hvalue) :
  k <> "__proto__" -> Obj.get h k = Obj.Undefined ->
  Obj.get (default_header h k v) k = Obj.Own v.
Proof.
  intros N U. unfold default_header. rewrite U. simpl.
  now apply get_set_same.
Qed.

Lemma default_length_other (h : Obj.t hvalue) (m : Method) (n : nat)
    (k : string) :
  k <> "content-length" ->
  Obj.get (default_length h m n) k = Obj.get h k.
Proof.
  intros N. unfold default_length.
  destruct (Obj.undefined (Obj.get h "content-length") && not_GET m);
    [|reflexivity].
  now apply get_set_other.
Qed.

Lemma default_length_GET (h : Obj.t hvalue) (n : nat) :
  default_length h GET n = h.
Proof.
  unfold default_length. simpl. now rewrite andb_false_r.
Qed.

Lemma default_length_fresh (h : Obj.t hvalue) (m : Method) (n : nat) :
  m <> GET -> Obj.get h "content-length" = Obj.Undefined ->
  Obj.get (default_length h m n) "content-length" = Obj.Own (HNum n).
Proof.
  intros N U. unfold default_length. rewrite U.
  replace (not_GET m) with true by (destruct m; try reflexivity; congruence).
  simpl. now apply get_set_same.
Qed.

(** The headers [sendRequest] gives to the request with an active body of
    [n] bytes and content type [ct]. *)
Lemma body_headers_length (h : Obj.t hvalue) (ct : string) (m : Method)
    (n : nat) :
  let h' := default_length (default_header h "content-type" (HStr ct)) m n in
  (m = GET -> Obj.get h' "content-length" = Obj.get h "content-length")
  /\ (m <> GET -> Obj.get h "content-length" = Obj.Undefined ->
      Obj.get h' "content-length" = Obj.Own (HNum n)).
Proof.
  cbv zeta. split.
  - intros ->. rewrite default_length_GET.
    now apply default_header_other.
  - intros N U. apply default_length_fresh; [assumption|].
    rewrite default_header_other; [assumption | discriminate].
Qed.

(** ** Computations *)

Lemma bind_Return {A B} (m : M A) (k : A -> M B) (o o' : list string) (b : B) :
  bind m k o = (Return b, o') ->
  exists a o1, m o = (Return a, o1) /\ k a o1 = (Return b, o').
Proof.
  unfold bind. destruct (m o) as [[a|e] o1]; [eauto | discriminate].
Qed.

Lemma bind_Throw_l {A B} (m : M A) (k : A -> M B) (o o' : list string)
    (e : string) :
  m o = (Throw e, o') -> bind m k o = (Throw e, o').
Proof.
  unfold bind. now intros ->.
Qed.

Lemma bind_Return_l {A B} (m : M A) (k : A -> M B) (o o' : list string)
    (a : A) :
  m o = (Return a, o') -> bind m k o = k a o'.
Proof.
  unfold bind. now intros ->.
Qed.

(** A loop whose body always returns, returns. *)
Lemma for_of_returns {A S} (body : S -> A -> M S) :
  (forall s x o, exists s' o', body s x o = (Return s', o')) ->
  forall xs s o, exists s' o', for_of xs body s o = (Return s', o').
Proof.
  intros Hb xs. induction xs as [|x xs IH]; intros s o; cbn [for_of].
  - unfold ret. eauto.
  - destruct (Hb s x o) as (s1 & o1 & E).
    rewrite (bind_Return_l _ _ _ _ _ E). apply IH.
Qed.

Lemma logWARN_returns (t : string) (o : list string) :
  logWARN t o = (Return tt, (o ++ [("WARNING: " ++ t)%string])%list).
Proof. reflexivity. Qed.

Lemma headers_step_returns (h : Obj.t hvalue) (x : string) (o : list string) :
  exists h' o', headers_step h x o = (Return h', o').
Proof.
  unfold headers_step. destruct (Str.indexOf ":" x) as [n|].
  - destruct (Obj.defined _); unfold bind, ret; simpl; eauto.
  - unfold bind, ret; simpl; eauto.
Qed.

Lemma queries_step_returns (q : Obj.t string) (x : string) (o : list string) :
  exists q' o', queries_step q x o = (Return q', o').
Proof.
  unfold queries_step. destruct (Str.indexOf "=" x) as [n|].
  - destruct (Obj.defined _); unfold bind, ret; simpl; eauto.
  - unfold bind, ret; simpl; eauto.
Qed.

(** The coercions never throw. *)
Lemma coerce_headers_returns (l : list string) (o : list string) :
  exists h o', coerce_headers l o = (Return h, o').
Proof. apply for_of_returns, headers_step_returns. Qed.

Lemma coerce_queries_returns (l : list string) (o : list string) :
  exists q o', coerce_queries l o = (Return q, o').
Proof.
  apply for_of_returns. intros s x o'.
  apply for_of_returns, queries_step_returns.
Qed.

(** A loop whose body adds lines that do not depend on the console adds
    lines that do not depend on it. *)
Lemma for_of_uniform {A S} (body : S -> A -> M S) :
  (forall s x, exists s' w, forall o, body s x o = (Return s', (o ++ w)%list)) ->
  forall xs s,
  exists s' w, forall o, for_of xs body s o = (Return s', (o ++ w)%list).
Proof.
  intros Hb xs. induction xs as [|x xs IH]; intros s.
  - exists s, []. intros o. cbn. unfold ret. now rewrite app_nil_r.
  - destruct (Hb s x) as (s1 & w1 & E1). destruct (IH s1) as (s2 & w2 & E2).
    exists s2, (w1 ++ w2)%list. intros o. cbn [for_of].
    rewrite (bind_Return_l _ _ _ _ _ (E1 o)), E2. now rewrite app_assoc.
Qed.

Lemma headers_step_uniform (h : Obj.t hvalue) (x : string) :
  exists w,
    forall o,
      headers_step h x o
      = (Return match header_key x with
                | Some k => Obj.set h k (HStr (header_value x))
                | None => h
                end, (o ++ w)%list).
Proof.
  unfold headers_step, header_key, header_value.
  destruct (Str.indexOf ":" x) as [n|].
  - destruct (Obj.defined _).
    + eexists [_]. reflexivity.
    + exists []. intros o. unfold bind, ret. now rewrite app_nil_r.
  - eexists [_]. reflexivity.
Qed.

Lemma queries_step_uniform (q : Obj.t string) (x : string) :
  exists w,
    forall o,
      queries_step q x o
      = (Return match query_key x with
                | Some k => Obj.set q k (query_value x)
                | None => q
                end, (o ++ w)%list).
Proof.
  unfold queries_step, query_key, query_value.
  destruct (Str.indexOf "=" x) as [n|].
  - destruct (Obj.defined _).
    + eexists [_]. reflexivity.
    + exists []. intros o. unfold bind, ret. now rewrite app_nil_r.
  - eexists [_]. reflexivity.
Qed.

Lemma headers_loop_uniform (l : list string) (h : Obj.t hvalue) :
  exists h' w,
    forall o, for_of l headers_step h o = (Return h', (o ++ w)%list).
Proof.
  apply for_of_uniform. intros s x.
  destruct (headers_step_uniform s x) as (w & E). eauto.
Qed.

Lemma queries_loop_uniform (l : list string) (q : Obj.t string) :
  exists q' w,
    forall o, for_of l queries_step q o = (Return q', (o ++ w)%list).
Proof.
  apply for_of_uniform. intros s x.
  destruct (queries_step_uniform s x) as (w & E). eauto.
Qed.

(** The mapping a coercion returns and the lines it prints do not depend
    on the console it starts from. *)
Lemma coerce_headers_uniform (l : list string) :
  exists h w, forall o, coerce_headers l o = (Return h, (o ++ w)%list).
Proof. apply headers_loop_uniform. Qed.

Lemma coerce_queries_uniform (l : list string) :
  exists q w, forall o, coerce_queries l o = (Return q, (o ++ w)%list).
Proof.
  apply for_of_uniform. intros s x.
  destruct (queries_loop_uniform (Str.split "&" x) s) as (q & w & E). eauto.
Qed.

(** ** Validation *)

(** [setupYargs] is the checks run on the coerced arguments, after the
    lines of the two coercions in the order of the command line. *)
Lemma setupYargs_checks (P : platform) (raw : Raw.t) (o : list string) :
  exists h q w o2,
    (forall oa,
        coerce_headers (Raw.headers raw) oa = (Return h, (oa ++ fst w)%list))
    /\ (forall oa,
           coerce_queries (Raw.queries raw) oa
           = (Return q, (oa ++ snd w)%list))
    /\ setupYargs P raw o
       = checks P
           (Args.mk (Raw.positional raw) (Raw.method raw) h q (Raw.data raw)
                    (Raw.json raw) (Raw.file raw) (Raw.timeout raw)
                    (Raw.body raw)) o2.
Proof.
  destruct (coerce_headers_uniform (Raw.headers raw)) as (h & wh & Eh).
  destruct (coerce_queries_uniform (Raw.queries raw)) as (q & wq & Eq).
  exists h, q, (wh, wq),
    (if Raw.queries_first raw then (o ++ wq) ++ wh else (o ++ wh) ++ wq)%list.
  split; [exact Eh|]. split; [exact Eq|].
  unfold setupYargs, coercions. destruct (Raw.queries_first raw).
  - unfold bind at 1 2. rewrite Eq. unfold bind at 1. rewrite Eh. reflexivity.
  - unfold bind at 1 2. rewrite Eh. unfold bind at 1. rewrite Eq. reflexivity.
Qed.

(** What passing the checks tells. *)
Lemma checks_Return (P : platform) (argv a : Args.t) (o o' : list string) :
  checks P argv o = (Return a, o') ->
  a = argv
  /\ (exists u url, Args.positional argv = [u] /\ URL_new P u = Return url)
  /\ (given (Args.data argv) = true ->
      Args.json argv = None /\ Args.file argv = None)
  /\ (forall f, Args.file argv = Some f ->
      exists bytes, readFileSync P f = Return bytes)
  /\ isNaN (Args.timeout argv) = false.
Proof.
  unfold checks. intros H.
  apply bind_Return in H as ([] & o1 & Hu & H).
  apply bind_Return in H as ([] & o2 & Hd & H).
  apply bind_Return in H as ([] & o3 & Hj & H).
  apply bind_Return in H as ([] & o4 & Hf & H).
  apply bind_Return in H as ([] & o5 & Ht & H).
  injection H as <- <-. split; [reflexivity|]. repeat split.
  - unfold check_url in Hu.
    destruct (Args.positional argv) as [|u [|]]; try discriminate.
    destruct (URL_new P u) as [url|] eqn:E; [eauto | discriminate].
  - unfold check_data in Hd. rewrite H in Hd.
    destruct (Args.json argv); [now destruct (given (Args.file argv))|].
    reflexivity.
  - unfold check_data in Hd. rewrite H in Hd.
    destruct (Args.file argv); [|reflexivity].
    rewrite orb_true_r in Hd. discriminate.
  - intros f Ef. unfold check_file in Hf. rewrite Ef in Hf.
    destruct (given (Some f) && _); [discriminate|].
    destruct (readFileSync P f) as [bytes|]; [eauto | discriminate].
  - unfold check_timeout in Ht.
    destruct (isNaN (Args.timeout argv)); [discriminate | reflexivity].
Qed.

(** Every check returns or throws; the ones before [check_timeout] cannot
    rescue an invocation without a timeout. *)
Lemma checks_no_timeout (P : platform) (argv : Args.t) (o : list string) :
  Args.timeout argv = None ->
  exists message o', checks P argv o = (Throw message, o').
Proof.
  intros T. unfold checks, bind.
  destruct (check_url P argv o) as [[[]|e1] o1]; [|eauto].
  destruct (check_data argv o1) as [[[]|e2] o2]; [|eauto].
  destruct (check_json P argv o2) as [[[]|e3] o3]; [|eauto].
  destruct (check_file P argv o3) as [[[]|e4] o4]; [|eauto].
  unfold check_timeout. rewrite T. simpl. unfold throw. eauto.
Qed.

(** A supplied timeout fails the check exactly when it is not a number. *)
Lemma check_timeout_supplied (argv : Args.t) (t : number) (o : list string) :
  Args.timeout argv = Some t ->
  (t = NaN ->
   check_timeout argv o = (Throw "ERROR: Timeout must be a number", o))
  /\ (t <> NaN -> check_timeout argv o = (Return tt, o)).
Proof.
  intros E. unfold check_timeout. rewrite E. split.
  - now intros ->.
  - destruct t; [congruence | reflexivity].
Qed.

(** C1: the claim fails on the code.  Every invocation that omits
    [--timeout] fails validation: [isNaN(undefined)] is true, so the check
    of the [timeout] option throws unless an earlier check already has. *)
Theorem timeout_omitted_fails_C1 (P : platform) (raw : Raw.t)
    (o : list string) :
  Raw.timeout raw = None ->
  (exists message o', setupYargs P raw o = (Throw message, o'))
  /\ requests (main P raw) = [].
Proof.
  intros T. split.
  - destruct (setupYargs_checks P raw o) as (h & q & o1 & o2 & _ & _ & ->).
    now apply checks_no_timeout.
  - destruct (setupYargs_checks P raw []) as (h & q & o1 & o2 & _ & _ & E).
    destruct (checks_no_timeout P
                (Args.mk (Raw.positional raw) (Raw.method raw) h q
                   (Raw.data raw) (Raw.json raw) (Raw.file raw)
                   (Raw.timeout raw) (Raw.body raw)) o2 T) as (m & o' & E').
    unfold main. rewrite E, E'. reflexivity.
Qed.

(** [nurl http://host/p?x=1] is rejected with the message of the timeout
    check, and no request is made. *)
Lemma timeout_omitted_fails_witness :
  Raw.timeout Example.url_only = None
  /\ ((exists message o',
         setupYargs Example.P Example.url_only [] = (Throw message, o'))
      /\ requests (main Example.P Example.url_only) = []).
Proof.
  split; [reflexivity|].
  exact (timeout_omitted_fails_C1 Example.P Example.url_only [] eq_refl).
Defined.

Example url_only_console :
  main Example.P Example.url_only
  = {| console := ["ERROR: Timeout must be a number"]; requests := [] |}.
Proof. reflexivity. Qed.

(** With two or more body options, a check for conflicting options
    throws unless the URL check already has. *)
Lemma checks_conflicting (P : platform) (argv : Args.t) (o : list string) :
  (given (Args.data argv) && given (Args.json argv))
  || (given (Args.data argv) && given (Args.file argv))
  || (given (Args.json argv) && given (Args.file argv)) = true ->
  exists message o',
    checks P argv o = (Throw message, o')
    /\ ((exists u url, Args.positional argv = [u] /\ URL_new P u = Return url)
        -> ConflictingOptions message).
Proof.
  intros C. unfold checks.
  destruct (check_url P argv o) as [[[]|e1] o1] eqn:Eu.
  - rewrite (bind_Return_l _ _ _ _ _ Eu).
    assert (o1 = o) as ->.
    { unfold check_url in Eu.
      destruct (Args.positional argv) as [|u [|]]; try discriminate.
      destruct (URL_new P u); now inversion Eu. }
    destruct (given (Args.data argv)) eqn:D.
    + assert (given (Args.json argv) || given (Args.file argv) = true) as JF
        by (destruct (given (Args.json argv)), (given (Args.file argv));
            try reflexivity; discriminate).
      exists (logERRORWrapper
        "Simultaneous usage of data and json or data and file is not permitted"),
        o.
      split; [|intros _; left; reflexivity].
      apply bind_Throw_l. unfold check_data. now rewrite D, JF.
    + simpl in C. apply andb_prop in C as [J F].
      exists (logERRORWrapper
        "Simultaneous usage of json and data or json and file is not permitted"),
        o.
      split; [|intros _; right; left; reflexivity].
      assert (check_data argv o = (Return tt, o)) as Ed.
      { unfold check_data. rewrite D. simpl.
        destruct (Args.data argv); [discriminate | reflexivity]. }
      rewrite (bind_Return_l _ _ _ _ _ Ed).
      apply bind_Throw_l. unfold check_json. rewrite J, F.
      now rewrite orb_true_r.
  - exists e1, o1. split; [now apply bind_Throw_l|].
    intros (u & url & Ep & En). unfold check_url in Eu. rewrite Ep, En in Eu.
    discriminate.
Qed.

Lemma conflicting_rejected (P : platform) (raw : Raw.t) :
  conflicting raw = true ->
  (exists message out,
      setupYargs P raw [] = (Throw message, out)
      /\ (url_valid P raw -> ConflictingOptions message))
  /\ requests (main P raw) = [].
Proof.
  intros C.
  destruct (setupYargs_checks P raw []) as (h & q & o1 & o2 & _ & _ & E).
  destruct (checks_conflicting P
              (Args.mk (Raw.positional raw) (Raw.method raw) h q
                 (Raw.data raw) (Raw.json raw) (Raw.file raw)
                 (Raw.timeout raw) (Raw.body raw)) o2 C) as (m & o' & E' & K).
  split.
  - exists m, o'. split; [congruence | exact K].
  - unfold main. rewrite E, E'. reflexivity.
Qed.

(** C3, as stated, fails: without a URL the invocation is rejected by the
    URL check, which runs first, and the error is not the one on
    conflicting options. *)
Lemma conflicting_without_url_counterexample :
  ~ conflicting_options_rejected (fun _ _ => True).
Proof.
  intros H.
  destruct (H Example.P Example.conflict_no_url eq_refl)
    as ((message & out & E & K) & _).
  injection E as <- <-.
  destruct (K I) as [X|[X|[X|[]]]]; discriminate X.
Qed.

(** C3, amended: every invocation that supplies two or more of [data],
    [json] and [file] fails validation and makes no request; the error is
    the one on conflicting options whenever the positional arguments are
    one valid URL (the URL check runs first and reports otherwise). *)
Theorem conflicting_options_C3 : conflicting_options_rejected url_valid.
Proof.
  unfold conflicting_options_rejected. intros P raw.
  apply conflicting_rejected.
Qed.

Lemma conflicting_options_witness :
  conflicting Example.conflict = true
  /\ ((exists message out,
         setupYargs Example.P Example.conflict [] = (Throw message, out)
         /\ (url_valid Example.P Example.conflict ->
             ConflictingOptions message))
      /\ requests (main Example.P Example.conflict) = []).
Proof.
  split; [reflexivity|].
  exact (conflicting_options_C3 Example.P Example.conflict eq_refl).
Defined.

Example conflict_console :
  main Example.P Example.conflict
  = {| console :=
         ["ERROR: Simultaneous usage of data and json or data and file is not permitted"];
       requests := [] |}.
Proof. reflexivity. Qed.

(** ** The request executor *)

(** The request [sendRequest] attempts with an active urlencoded body. *)
Lemma sendRequest_body (P : platform) (url : URL.t) (m : Method)
    (h : Obj.t hvalue) (q : Obj.t string) (body json filePath : option string)
    (t : option number) (o : list string) :
  truthy body = true ->
  sendRequest P url m h q body json filePath t o
  = attempt P
      (Request.mk (URL.hostname url) "80" (requestPath url q)
         (default_length
            (default_header h "content-type"
               (HStr "application/x-www-form-urlencoded")) m
            (byteLength_string (text body)))
         m t [] false)
      [Utf8.encode (text body)] o.
Proof.
  intros B. unfold sendRequest, prepare, attempt. rewrite B. reflexivity.
Qed.

(** With an active JSON body and no urlencoded one. *)
Lemma sendRequest_json (P : platform) (url : URL.t) (m : Method)
    (h : Obj.t hvalue) (q : Obj.t string) (body json filePath : option string)
    (t : option number) (o : list string) :
  truthy body = false -> truthy json = true ->
  sendRequest P url m h q body json filePath t o
  = attempt P
      (Request.mk (URL.hostname url) "80" (requestPath url q)
         (default_length
            (default_header h "content-type" (HStr "application/json")) m
            (byteLength_string (text json)))
         m t [] false)
      [Utf8.encode (text json)] o.
Proof.
  intros B J. unfold sendRequest, prepare, attempt. rewrite B, J. reflexivity.
Qed.

(** With an active file body that can be read. *)
Lemma sendRequest_file (P : platform) (url : URL.t) (m : Method)
    (h : Obj.t hvalue) (q : Obj.t string) (body json filePath : option string)
    (t : option number) (o : list string) (file : list byte) :
  truthy body = false -> truthy json = false -> truthy filePath = true ->
  readFileSync P (text filePath) = Return file ->
  sendRequest P url m h q body json filePath t o
  = attempt P
      (Request.mk (URL.hostname url) "80" (requestPath url q)
         (default_length
            (default_header h "content-type" (HStr "application/octet-stream"))
            m (byteLength_buffer file))
         m t [] false)
      [file] o.
Proof.
  intros B J F R. unfold sendRequest, prepare, attempt.
  rewrite B, J, F, R. reflexivity.
Qed.

(** With an active file body that cannot be read: the promise rejects
    before the [try], and nothing is printed. *)
Lemma sendRequest_file_fails (P : platform) (url : URL.t) (m : Method)
    (h : Obj.t hvalue) (q : Obj.t string) (body json filePath : option string)
    (t : option number) (o : list string) (message : string) :
  truthy body = false -> truthy json = false -> truthy filePath = true ->
  readFileSync P (text filePath) = Throw message ->
  sendRequest P url m h q body json filePath t o = (Throw message, o).
Proof.
  intros B J F R. unfold sendRequest, prepare. rewrite B, J, F, R. reflexivity.
Qed.

(** Without an active body the headers are the user's and nothing is
    written. *)
Lemma sendRequest_no_body (P : platform) (url : URL.t) (m : Method)
    (h : Obj.t hvalue) (q : Obj.t string) (body json filePath : option string)
    (t : option number) (o : list string) :
  truthy body = false -> truthy json = false -> truthy filePath = false ->
  sendRequest P url m h q body json filePath t o
  = attempt P (bare_request url m h q t) [] o.
Proof.
  intros B J F. unfold sendRequest, prepare, attempt, bare_request.
  rewrite B, J, F. reflexivity.
Qed.

(** Writing changes nothing but what is written. *)
Lemma written_fields (chunks : list (list byte)) (r : Request.t) :
  Request.path (fold_left Request.write chunks r) = Request.path r
  /\ Request.hostname (fold_left Request.write chunks r) = Request.hostname r
  /\ Request.port (fold_left Request.write chunks r) = Request.port r
  /\ Request.headers (fold_left Request.write chunks r) = Request.headers r
  /\ Request.method (fold_left Request.write chunks r) = Request.method r
  /\ Request.timeout (fold_left Request.write chunks r) = Request.timeout r
  /\ Request.written (fold_left Request.write chunks r)
     = (Request.written r ++ chunks)%list.
Proof.
  revert r. induction chunks as [|c chunks IH]; intros r.
  - cbn. now rewrite app_nil_r.
  - cbn [fold_left].
    destruct (IH (Request.write r c)) as (H1 & H2 & H3 & H4 & H5 & H6 & H7).
    rewrite H1, H2, H3, H4, H5, H6, H7. cbn. now rewrite <- app_assoc.
Qed.

(** The two ends of an attempt. *)
Lemma attempt_Return (P : platform) (options : Request.t)
    (chunks : list (list byte)) (o : list string) :
  http_request P options = Return tt ->
  attempt P options chunks o
  = (Return (Some (Request.end_ (fold_left Request.write chunks options))), o).
Proof. unfold attempt. now intros ->. Qed.

Lemma attempt_Throw (P : platform) (options : Request.t)
    (chunks : list (list byte)) (o : list string) (message : string) :
  http_request P options = Throw message ->
  attempt P options chunks o
  = (Return None, (o ++ [logERRORWrapper message])%list).
Proof. unfold attempt. now intros ->. Qed.

(** C6: with the JSON string [{"a":1}] as body source and no
    [content-type] among the user's headers, [sendRequest] hands to
    [http.request] options with [content-type: application/json]; when
    [http.request] returns, the request is made with that header, and
    what is written before the end of the request is the UTF-8 encoding
    of the JSON string; when it throws (as on a path with a space), the
    error is printed and no request is made. *)
Theorem json_body_sent_C6 (P : platform) (url : URL.t) (method : Method)
    (headers : Obj.t hvalue) (queries : Obj.t string)
    (timeout : option number) (out : list string) :
  Obj.get headers "content-type" = Obj.Undefined ->
  exists options,
    Request.hostname options = URL.hostname url
    /\ Request.path options = requestPath url queries
    /\ Request.method options = method
    /\ Request.timeout options = timeout
    /\ Obj.get (Request.headers options) "content-type"
       = Obj.Own (HStr "application/json")
    /\ match http_request P options with
       | Return _ =>
           exists request,
             sendRequest P url method headers queries None (Some json_a1) None
               timeout out = (Return (Some request), out)
             /\ Obj.get (Request.headers request) "content-type"
                = Obj.Own (HStr "application/json")
             /\ Request.written request = [Utf8.encode json_a1]
             /\ Request.ended request = true
       | Throw message =>
           sendRequest P url method headers queries None (Some json_a1) None
             timeout out
           = (Return None, (out ++ [logERRORWrapper message])%list)
       end.
Proof.
  intros U.
  assert (Obj.get
            (default_length
               (default_header headers "content-type" (HStr "application/json"))
               method (byteLength_string json_a1)) "content-type"
          = Obj.Own (HStr "application/json")) as G.
  { rewrite default_length_other by discriminate.
    apply default_header_fresh; [discriminate | assumption]. }
  exists (Request.mk (URL.hostname url) "80" (requestPath url queries)
            (default_length
               (default_header headers "content-type"
                  (HStr "application/json"))
               method (byteLength_string json_a1))
            method timeout [] false).
  cbn [Request.hostname Request.path Request.method Request.timeout
       Request.headers].
  repeat (split; [reflexivity || exact G|]).
  rewrite (sendRequest_json P url method headers queries None (Some json_a1)
             None timeout out eq_refl eq_refl).
  cbn [text]. unfold attempt.
  destruct (http_request P _) as [[]|message]; [|reflexivity].
  eexists. split; [reflexivity|]. now repeat split.
Qed.

Lemma json_body_sent_witness :
  Obj.get (A := hvalue) [("accept", HStr "*/*")] "content-type" = Obj.Undefined
  /\ exists options,
       Request.hostname options = "host"
       /\ Request.path options
          = requestPath (URL.mk "host" "/p" "") Obj.empty
       /\ Request.method options = POST
       /\ Request.timeout options = Example.five
       /\ Obj.get (Request.headers options) "content-type"
          = Obj.Own (HStr "application/json")
       /\ match http_request Example.P options with
          | Return _ =>
              exists request,
                sendRequest Example.P (URL.mk "host" "/p" "") POST
                  [("accept", HStr "*/*")] Obj.empty None (Some json_a1) None
                  Example.five [] = (Return (Some request), [])
                /\ Obj.get (Request.headers request) "content-type"
                   = Obj.Own (HStr "application/json")
                /\ Request.written request = [Utf8.encode json_a1]
                /\ Request.ended request = true
          | Throw message =>
              sendRequest Example.P (URL.mk "host" "/p" "") POST
                [("accept", HStr "*/*")] Obj.empty None (Some json_a1) None
                Example.five []
              = (Return None, ([] ++ [logERRORWrapper message])%list)
          end.
Proof.
  split; [reflexivity|].
  exact (json_body_sent_C6 Example.P (URL.mk "host" "/p" "") POST
           [("accept", HStr "*/*")] Obj.empty Example.five [] eq_refl).
Defined.

Example json_body_sent_example :
  sendRequest Example.P (URL.mk "host" "/p" "") POST [("accept", HStr "*/*")]
    Obj.empty None (Some json_a1) None Example.five []
  = (Return
       (Some (Request.mk "host" "80" "/p"
                [("accept", HStr "*/*");
                 ("content-type", HStr "application/json");
                 ("content-length", HNum 7)]
                POST Example.five [Utf8.encode json_a1] true)), []).
Proof. reflexivity. Qed.

Example json_body_path_with_space :
  sendRequest Example.P (URL.mk "host" "/p" "") POST Obj.empty
    [("q", "hello world")] None (Some json_a1) None Example.five []
  = (Return None, ["ERROR: Request path contains unescaped characters"]).
Proof. reflexivity. Qed.

(** C5, as stated, fails: a JSON body that is the empty string is a body
    source that is set, and a POST request with it gets no
    [content-length]. *)
Lemma content_length_empty_json_counterexample :
  ~ content_length_default body_source.
Proof.
  intros H.
  destruct (H {| URL_new := fun _ => Throw "Invalid URL";
                 JSON_parse_ok := fun _ => false;
                 readFileSync := fun _ => Throw "ENOENT";
                 http_request := fun _ => Return tt |}
              (URL.mk "host" "/p" "") POST Obj.empty Obj.empty
              None (Some "") None None [] [] eq_refl)
    as (options & E & W & _ & _ & L).
  apply (f_equal (fun x => match fst x with
                          | Return (Some r) => Request.written r
                          | _ => []
                          end)) in E.
  cbn in E. rewrite W in E. discriminate E.
Qed.

(** C5, amended: for every call of the request executor whose body source
    is active (the first of urlencoded, JSON and file that is a non-empty
    string, the file being readable), the request is attempted with the
    serialized body as its one chunk; with method GET no [content-length]
    is added to its headers; with another method and no [content-length]
    of the user, the header is the byte length of the serialized body.  A
    body source that is the empty string counts as no body: when none of
    the three is a non-empty string, the request is attempted with the
    headers of the user and nothing to write. *)
Theorem content_length_active_body_C5 :
  content_length_default active_body
  /\ forall (P : platform) (url : URL.t) (method : Method)
            (headers : Obj.t hvalue) (queries : Obj.t string)
            (body json filePath : option string) (timeout : option number)
            (out : list string),
       truthy body = false -> truthy json = false ->
       truthy filePath = false ->
       sendRequest P url method headers queries body json filePath timeout out
       = attempt P (bare_request url method headers queries timeout) [] out.
Proof.
  split; [|intros; now apply sendRequest_no_body].
  unfold content_length_default, active_body.
  intros P url method headers queries body json filePath timeout out bytes.
  destruct (truthy body) eqn:B; [|destruct (truthy json) eqn:J;
    [|destruct (truthy filePath) eqn:F]].
  - intros [= <-]. eexists. split; [now apply sendRequest_body|].
    cbn [Request.written Request.ended Request.headers].
    split; [reflexivity|]. split; [reflexivity|]. apply body_headers_length.
  - intros [= <-]. eexists. split; [now apply sendRequest_json|].
    cbn [Request.written Request.ended Request.headers].
    split; [reflexivity|]. split; [reflexivity|]. apply body_headers_length.
  - destruct (readFileSync P (text filePath)) as [file|e] eqn:R;
      [|discriminate].
    intros [= <-]. eexists. split; [now apply sendRequest_file|].
    cbn [Request.written Request.ended Request.headers].
    split; [reflexivity|]. split; [reflexivity|]. apply body_headers_length.
  - discriminate.
Qed.

Lemma content_length_active_body_witness :
  active_body Example.P None (Some json_a1) None = Some (Utf8.encode json_a1)
  /\ (exists options,
         sendRequest Example.P (URL.mk "host" "/p" "") POST Obj.empty
           Obj.empty None (Some json_a1) None Example.five []
         = attempt Example.P options [Utf8.encode json_a1] []
         /\ Request.written options = [] /\ Request.ended options = false
         /\ (POST = GET ->
             Obj.get (Request.headers options) "content-length"
             = Obj.get (A := hvalue) Obj.empty "content-length")
         /\ (POST <> GET ->
             Obj.get (A := hvalue) Obj.empty "content-length" = Obj.Undefined ->
             Obj.get (Request.headers options) "content-length"
             = Obj.Own (HNum (List.length (Utf8.encode json_a1)))))
  /\ truthy (Some "") = false
  /\ sendRequest Example.P (URL.mk "host" "/p" "") POST Obj.empty Obj.empty
       None (Some "") None Example.five []
     = attempt Example.P
         (bare_request (URL.mk "host" "/p" "") POST Obj.empty Obj.empty
            Example.five) [] [].
Proof.
  split; [reflexivity|]. split.
  - exact (proj1 content_length_active_body_C5 Example.P
             (URL.mk "host" "/p" "") POST Obj.empty Obj.empty None
             (Some json_a1) None Example.five [] (Utf8.encode json_a1)
             eq_refl).
  - split; [reflexivity|].
    exact (proj2 content_length_active_body_C5 Example.P
             (URL.mk "host" "/p" "") POST Obj.empty Obj.empty None (Some "")
             None Example.five [] eq_refl eq_refl eq_refl).
Defined.

Example empty_json_request :
  sendRequest Example.P (URL.mk "host" "/p" "") POST Obj.empty Obj.empty None
    (Some "") None Example.five []
  = (Return (Some (Request.mk "host" "80" "/p" [] POST Example.five [] true)),
     []).
Proof. reflexivity. Qed.

(** ** The entry point *)

(** What [main] does with the result of [sendRequest]. *)
Lemma main_valid (P : platform) (raw : Raw.t) (args : Args.t)
    (out : list string) :
  setupYargs P raw [] = (Return args, out) ->
  exists h q w u url,
    (forall oa,
        coerce_headers (Raw.headers raw) oa = (Return h, (oa ++ fst w)%list))
    /\ (forall oa,
           coerce_queries (Raw.queries raw) oa
           = (Return q, (oa ++ snd w)%list))
    /\ args = Args.mk (Raw.positional raw) (Raw.method raw) h q (Raw.data raw)
                (Raw.json raw) (Raw.file raw) (Raw.timeout raw) (Raw.body raw)
    /\ Raw.positional raw = [u] /\ URL_new P u = Return url
    /\ (given (Raw.data raw) = true ->
        Raw.json raw = None /\ Raw.file raw = None)
    /\ (forall f, Raw.file raw = Some f ->
        exists bytes, readFileSync P f = Return bytes)
    /\ main P raw
       = match sendRequest P url (Raw.method raw) h q (Raw.body raw)
                 (Raw.json raw) (Raw.file raw) (Raw.timeout raw) out with
         | (Return (Some request), out') =>
             {| console := out'; requests := [request] |}
         | (Return None, out') => {| console := out'; requests := [] |}
         | (Throw message, out') =>
             {| console := (out' ++ [logERRORWrapper message])%list;
                requests := [] |}
         end.
Proof.
  intros H.
  destruct (setupYargs_checks P raw []) as (h & q & w & o2 & Eh & Eq & E).
  rewrite E in H.
  pose proof H as H'.
  apply checks_Return in H' as (-> & (u & url & Ep & Eu) & D & F & T).
  cbn [Args.positional Args.data Args.json Args.file] in Ep, D, F.
  exists h, q, w, u, url. repeat split; try assumption.
  - now apply D.
  - now apply D.
  - unfold main. rewrite E, H. cbn [Args.positional]. rewrite Ep.
    cbn [nth]. rewrite Eu. reflexivity.
Qed.

(** The outcome of an invocation whose [sendRequest] comes to an
    attempt. *)
Lemma main_attempt (P : platform) (raw : Raw.t) (out : list string)
    (options : Request.t) (chunks : list (list byte)) :
  main P raw
  = match attempt P options chunks out with
    | (Return (Some request), out') =>
        {| console := out'; requests := [request] |}
    | (Return None, out') => {| console := out'; requests := [] |}
    | (Throw message, out') =>
        {| console := (out' ++ [logERRORWrapper message])%list;
           requests := [] |}
    end ->
  main P raw
  = match http_request P options with
    | Return _ =>
        {| console := out;
           requests :=
             [Request.end_ (fold_left Request.write chunks options)] |}
    | Throw message =>
        {| console := (out ++ [logERRORWrapper message])%list;
           requests := [] |}
    end.
Proof.
  intros ->. unfold attempt. now destruct (http_request P options).
Qed.

(** C2: the claim fails on the code.  [main] hands [args.body] to
    [sendRequest], and the [--data] option is stored under [data]: when
    [--data] is the body source of an invocation that passes validation,
    the request is attempted with the headers of the user alone and
    nothing to write; when [http.request] returns, the request is made
    and ended with nothing written to it, and when it throws, no request
    is made and the error is printed. *)
Theorem data_not_written_C2 (P : platform) (raw : Raw.t) (args : Args.t)
    (out : list string) (d : string) :
  Raw.data raw = Some d ->
  Raw.body raw = None ->
  setupYargs P raw [] = (Return args, out) ->
  exists u url,
    Raw.positional raw = [u] /\ URL_new P u = Return url
    /\ match http_request P
              (bare_request url (Args.method args) (Args.headers args)
                 (Args.queries args) (Args.timeout args)) with
    | Return _ =>
        exists request,
          requests (main P raw) = [request]
          /\ Request.written request = []
          /\ Request.ended request = true
          /\ Request.headers request = Args.headers args
    | Throw message =>
        requests (main P raw) = []
        /\ console (main P raw) = (out ++ [logERRORWrapper message])%list
    end.
Proof.
  intros D B H.
  apply main_valid in H
    as (h & q & w & u & url & _ & _ & -> & Ep & Eu & C & _ & Em).
  rewrite D in C. destruct (C eq_refl) as [J F].
  rewrite B, J, F in Em.
  rewrite (sendRequest_no_body P url (Raw.method raw) h q None None None
             (Raw.timeout raw) out eq_refl eq_refl eq_refl) in Em.
  apply main_attempt in Em.
  exists u, url. split; [assumption|]. split; [assumption|].
  cbn [Args.method Args.headers Args.queries Args.timeout].
  destruct (http_request P _) as [[]|message]; rewrite Em.
  - eexists. split; [reflexivity|]. now repeat split.
  - now split.
Qed.

Lemma data_not_written_witness :
  Raw.data Example.with_data = Some "a=1"
  /\ Raw.body Example.with_data = None
  /\ setupYargs Example.P Example.with_data []
     = (Return (Args.mk ["http://host/p?x=1"] POST [] [] (Some "a=1") None None
                  Example.five None), [])
  /\ exists u url,
       Raw.positional Example.with_data = [u]
       /\ URL_new Example.P u = Return url
       /\ match http_request Example.P
                 (bare_request url POST [] [] Example.five) with
       | Return _ =>
           exists request,
             requests (main Example.P Example.with_data) = [request]
             /\ Request.written request = []
             /\ Request.ended request = true
             /\ Request.headers request = []
       | Throw message =>
           requests (main Example.P Example.with_data) = []
           /\ console (main Example.P Example.with_data)
              = ([] ++ [logERRORWrapper message])%list
       end.
Proof.
  split; [reflexivity|]. split; [reflexivity|]. split; [reflexivity|].
  exact (data_not_written_C2 Example.P Example.with_data _ [] "a=1"
           eq_refl eq_refl eq_refl).
Defined.

Example with_data_outcome :
  main Example.P Example.with_data
  = {| console := [];
       requests :=
         [Request.mk "host" "80" "/p" [] POST Example.five [] true] |}.
Proof. reflexivity. Qed.

(** ** The request path *)

Lemma requestPath_empty (url : URL.t) :
  requestPath url Obj.empty = URL.pathname url.
Proof.
  rewrite requestPath_eq. cbn. apply append_empty_r.
Qed.

(** [sendRequest] reads the hostname and the pathname of the URL and
    nothing else of it. *)
Lemma sendRequest_search (P : platform) (hostname pathname search search' : string)
    (m : Method) (h : Obj.t hvalue) (q : Obj.t string)
    (body json filePath : option string) (t : option number)
    (o : list string) :
  sendRequest P (URL.mk hostname pathname search) m h q body json filePath t o
  = sendRequest P (URL.mk hostname pathname search') m h q body json filePath
      t o.
Proof. reflexivity. Qed.

(** An invocation that passes validation attempts one request. *)
Lemma main_attempts (P : platform) (raw : Raw.t) (args : Args.t)
    (out : list string) :
  setupYargs P raw [] = (Return args, out) ->
  exists u url options chunks,
    Raw.positional raw = [u] /\ URL_new P u = Return url
    /\ Request.hostname options = URL.hostname url
    /\ Request.port options = "80"
    /\ Request.path options = requestPath url (Args.queries args)
    /\ Request.method options = Raw.method raw
    /\ Request.timeout options = Raw.timeout raw
    /\ Request.written options = []
    /\ List.length chunks <= 1
    /\ main P raw
       = match http_request P options with
         | Return _ =>
             {| console := out;
                requests :=
                  [Request.end_ (fold_left Request.write chunks options)] |}
         | Throw message =>
             {| console := (out ++ [logERRORWrapper message])%list;
                requests := [] |}
         end.
Proof.
  intros H.
  apply main_valid in H
    as (h & q & w & u & url & _ & _ & -> & Ep & Eu & _ & F & Em).
  cbn [Args.queries].
  destruct (truthy (Raw.body raw)) eqn:B;
    [|destruct (truthy (Raw.json raw)) eqn:J;
      [|destruct (truthy (Raw.file raw)) eqn:Ft]].
  - rewrite (sendRequest_body _ _ _ _ _ _ _ _ _ _ B) in Em.
    apply main_attempt in Em.
    eexists u, url, _, _. repeat split; try eassumption; try reflexivity.
    all: cbn; lia.
  - rewrite (sendRequest_json _ _ _ _ _ _ _ _ _ _ B J) in Em.
    apply main_attempt in Em.
    eexists u, url, _, _. repeat split; try eassumption; try reflexivity.
    all: cbn; lia.
  - destruct (Raw.file raw) as [f|] eqn:Ef; [|discriminate].
    destruct (F f eq_refl) as (bytes & R).
    rewrite (sendRequest_file _ _ _ _ _ _ _ _ _ _ bytes B J Ft R) in Em.
    apply main_attempt in Em.
    eexists u, url, _, _. repeat split; try eassumption; try reflexivity.
    all: cbn; lia.
  - rewrite (sendRequest_no_body _ _ _ _ _ _ _ _ _ _ B J Ft) in Em.
    apply main_attempt in Em.
    eexists u, url, _, _. repeat split; try eassumption; try reflexivity.
    all: cbn; lia.
Qed.

(** C9: whatever query string the URL argument carries, an invocation
    without [--queries] that passes validation attempts one request,
    whose path is the pathname of the URL; when [http.request] returns,
    that request is made and nothing is printed after the lines of
    validation; when it throws, no request is made and the error is
    printed.  [url.search] is not used: [sendRequest] does the same for
    every query string of the URL. *)
Theorem url_query_discarded_C9 :
  (forall (P : platform) (raw : Raw.t) (args : Args.t) (out : list string)
          (u : string) (url : URL.t),
      Raw.positional raw = [u] ->
      URL_new P u = Return url ->
      Raw.queries raw = [] ->
      setupYargs P raw [] = (Return args, out) ->
      exists options,
        Request.hostname options = URL.hostname url
        /\ Request.path options = URL.pathname url
        /\ match http_request P options with
           | Return _ =>
               exists request,
                 requests (main P raw) = [request]
                 /\ Request.path request = URL.pathname url
                 /\ console (main P raw) = out
           | Throw message =>
               requests (main P raw) = []
               /\ console (main P raw)
                  = (out ++ [logERRORWrapper message])%list
           end)
  /\ (forall (P : platform) (hostname pathname search search' : string)
             (method : Method) (headers : Obj.t hvalue)
             (queries : Obj.t string) (body json filePath : option string)
             (timeout : option number) (out : list string),
         sendRequest P (URL.mk hostname pathname search) method headers
           queries body json filePath timeout out
         = sendRequest P (URL.mk hostname pathname search') method headers
             queries body json filePath timeout out).
Proof.
  split; [|intros; apply sendRequest_search].
  intros P raw args out u url Ep Eu Eq H.
  pose proof H as H'.
  apply main_valid in H' as (h & q & w & _ & _ & _ & Ec & -> & _).
  apply main_attempts in H
    as (u' & url' & options & chunks & Ep' & Eu' & Hh & _ & Hp & _ & _ & Hw
        & _ & Em).
  rewrite Ep in Ep'. injection Ep' as <-.
  rewrite Eu in Eu'. injection Eu' as <-.
  rewrite Eq in Ec. specialize (Ec []). injection Ec as <- _.
  cbn [Args.queries] in Hp. rewrite requestPath_empty in Hp.
  exists options. split; [assumption|]. split; [assumption|].
  destruct (http_request P options) as [[]|message]; rewrite Em.
  - eexists. split; [reflexivity|]. split; [|reflexivity].
    cbn [Request.path Request.end_].
    now rewrite (proj1 (written_fields chunks options)).
  - now split.
Qed.

Lemma url_query_discarded_witness :
  Raw.positional Example.with_timeout = ["http://host/p?x=1"]
  /\ URL_new Example.P "http://host/p?x=1"
     = Return (URL.mk "host" "/p" "?x=1")
  /\ Raw.queries Example.with_timeout = []
  /\ setupYargs Example.P Example.with_timeout []
     = (Return (Args.mk ["http://host/p?x=1"] GET [] [] None None None
                  Example.five None), [])
  /\ exists options,
       Request.hostname options = "host"
       /\ Request.path options = "/p"
       /\ match http_request Example.P options with
          | Return _ =>
              exists request,
                requests (main Example.P Example.with_timeout) = [request]
                /\ Request.path request = "/p"
                /\ console (main Example.P Example.with_timeout) = []
          | Throw message =>
              requests (main Example.P Example.with_timeout) = []
              /\ console (main Example.P Example.with_timeout)
                 = ([] ++ [logERRORWrapper message])%list
          end.
Proof.
  split; [reflexivity|]. split; [reflexivity|]. split; [reflexivity|].
  split; [reflexivity|].
  exact (proj1 url_query_discarded_C9 Example.P Example.with_timeout _ []
           "http://host/p?x=1" (URL.mk "host" "/p" "?x=1")
           eq_refl eq_refl eq_refl eq_refl).
Defined.

Example with_timeout_outcome :
  main Example.P Example.with_timeout
  = {| console := [];
       requests :=
         [Request.mk "host" "80" "/p" [] GET Example.five [] true] |}.
Proof. reflexivity. Qed.

Example negative_timeout_outcome :
  main Example.P Example.negative_timeout
  = {| console := ["ERROR: The value of timeout is out of range"];
       requests := [] |}.
Proof. reflexivity. Qed.

Example spaced_query_outcome :
  main Example.P Example.spaced_query
  = {| console :=
         [ "WARNING: Invalid query parameter d";
           "WARNING: Invalid header oops";
           "ERROR: Request path contains unescaped characters" ];
       requests := [] |}.
Proof. reflexivity. Qed.

(** C7: for [--queries "a=1&b=2"] and a URL of path [/search] the path of
    the request is [/search?a=1&b=2]; and for every URL and mapping the
    path is the pathname, followed, when the mapping has a property, by
    [?] and the [key=value] pairs in the order of enumeration joined by
    [&], with no separator after the last pair. *)
Theorem requestPath_queries_C7 :
  (forall (hostname search : string) (out : list string),
      exists queries,
        coerce_queries ["a=1&b=2"] out = (Return queries, out)
        /\ requestPath (URL.mk hostname "/search" search) queries
           = "/search?a=1&b=2")
  /\ (forall (url : URL.t) (queries : Obj.t string),
         requestPath url queries
         = URL.pathname url
           ++ match Obj.entries queries with
              | [] => ""
              | pairs => "?" ++ String.concat "&" (map pair_text pairs)
              end).
Proof.
  split.
  - intros hostname search out. eexists. split; reflexivity.
  - intros url queries. rewrite requestPath_eq. unfold query_suffix, query_text.
    now destruct (Obj.entries queries).
Qed.

Lemma concat_cons (sep x : string) (l : list string) :
  l <> [] -> String.concat sep (x :: l) = x ++ sep ++ String.concat sep l.
Proof.
  destruct l; [contradiction | reflexivity].
Qed.

(** The text of the pairs ends with the text of the last pair. *)
Lemma query_text_last (pairs : list (string * string)) (kv : string * string) :
  exists before, query_text (pairs ++ [kv]) = before ++ pair_text kv.
Proof.
  induction pairs as [|p pairs (before & IH)].
  - exists "". reflexivity.
  - exists (pair_text p ++ "&" ++ before).
    change (query_text ((p :: pairs) ++ [kv]))
      with (String.concat "&" (pair_text p :: map pair_text (pairs ++ [kv]))).
    rewrite concat_cons by (now destruct pairs).
    fold (query_text (pairs ++ [kv])).
    rewrite IH. string_normal. reflexivity.
Qed.

(** The last character of the path comes from the pathname, or from the
    [=value] of the last pair. *)
Lemma requestPath_last_char (url : URL.t) (queries : Obj.t string) :
  Str.last_char (requestPath url queries)
  = match rev (Obj.entries queries) with
    | [] => Str.last_char (URL.pathname url)
    | kv :: _ => Str.last_char ("=" ++ snd kv)
    end.
Proof.
  rewrite requestPath_eq.
  destruct (rev (Obj.entries queries)) as [|kv r] eqn:E.
  - apply (f_equal (@rev _)) in E. rewrite rev_involutive in E. rewrite E.
    cbn. now rewrite append_empty_r.
  - apply (f_equal (@rev _)) in E. rewrite rev_involutive in E. rewrite E.
    cbn [rev]. unfold query_suffix.
    destruct (rev r ++ [kv])%list eqn:E'; [now destruct (rev r)|].
    rewrite <- E'. destruct (query_text_last (rev r) kv) as (before & ->).
    unfold pair_text.
    transitivity
      (Str.last_char
         ((URL.pathname url ++ "?" ++ before ++ fst kv)
          ++ String "=" (snd kv))).
    + f_equal. string_normal. reflexivity.
    + apply last_char_append.
Qed.

(** C10: for the empty mapping the path is the pathname; for every
    mapping the path is the pathname followed, when the mapping has a
    property, by [?] and the pairs joined by [&]: the separators stand
    before the first pair and between two pairs only, the one the
    construction appends last being trimmed.  The last character of the
    path is therefore the last character of the pathname when the mapping
    is empty, and of the [=value] of the last pair otherwise: the path
    ends in [?] or [&] only when that pathname or value does. *)
Theorem requestPath_trimmed_C10 :
  (forall url : URL.t, requestPath url Obj.empty = URL.pathname url)
  /\ (forall (url : URL.t) (queries : Obj.t string),
         Str.last_char (requestPath url queries)
         = match rev (Obj.entries queries) with
           | [] => Str.last_char (URL.pathname url)
           | kv :: _ => Str.last_char ("=" ++ snd kv)
           end)
  /\ (forall (url : URL.t) (queries : Obj.t string),
         ends_in_separator (requestPath url queries)
         = match rev (Obj.entries queries) with
           | [] => ends_in_separator (URL.pathname url)
           | kv :: _ => ends_in_separator (snd kv)
           end)
  /\ (forall (url : URL.t) (queries : Obj.t string),
         requestPath url queries
         = URL.pathname url
           ++ match Obj.entries queries with
              | [] => ""
              | pairs => "?" ++ String.concat "&" (map pair_text pairs)
              end).
Proof.
  split; [exact requestPath_empty|]. split; [exact requestPath_last_char|].
  split.
  - intros url queries. unfold ends_in_separator.
    rewrite requestPath_last_char.
    destruct (rev (Obj.entries queries)) as [|kv r]; [reflexivity|].
    destruct (snd kv) as [|c v]; [reflexivity|].
    change ("=" ++ String c v) with (String "=" (String c v)).
    reflexivity.
  - intros url queries. rewrite requestPath_eq.
    unfold query_suffix, query_text. now destruct (Obj.entries queries).
Qed.

(** A [?] that ends the path is the end of the last value, kept as the
    user gave it. *)
Example value_question_mark_kept :
  forall out, exists queries,
    coerce_queries ["a=?"] out = (Return queries, out)
    /\ requestPath (URL.mk "host" "/p" "") queries = "/p?a=?".
Proof. intros out. eexists. split; reflexivity. Qed.

(** ** The response handler *)

(** A loop that prints one line for each element. *)
Lemma for_of_console_log {A} (line : A -> string) (xs : list A)
    (o : list string) :
  for_of xs (fun _ x => console_log (line x)) tt o
  = (Return tt, (o ++ map line xs)%list).
Proof.
  revert o. induction xs as [|x xs IH]; intros o; cbn [for_of map].
  - unfold ret. now rewrite app_nil_r.
  - unfold bind, console_log. rewrite IH. now rewrite <- app_assoc.
Qed.

(** What the listener of ['end'] prints: the method line shows the
    [method] field of the response, whatever the method of the request. *)
Lemma on_end_lines (res : Response.t) (rawBody : list (list byte))
    (body : string) :
  Utf8.decode (List.concat rawBody) = Some body ->
  exists print,
    on_end res rawBody = Some print
    /\ forall out,
        print out
        = (Return tt,
           (out
            ++ [ "";
                 "-----------------RESPONSE-------------------";
                 ("METHOD: " ++ text_or_null (Response.method res))%string;
                 ("STATUS: " ++ Str.of_nat (Response.statusCode res) ++ " - "
                    ++ Response.statusMessage res)%string;
                 "HEADERS: " ]
            ++ map (fun kv => String "009" (fst kv ++ ": " ++ snd kv)%string)
                 (Obj.entries (Response.headers res))
            ++ [ ("BODY: " ++ body)%string ])%list).
Proof.
  intros D. unfold on_end. rewrite D. eexists. split; [reflexivity|].
  intros out. unfold bind at 1 2 3 4 5. unfold console_log at 1 2 3 4 5.
  unfold bind. rewrite for_of_console_log. unfold console_log.
  rewrite <- !app_assoc. reflexivity.
Qed.

(** C4: the claim fails on the code.  On the completed exchange of the
    claim the handler prints the method of the response object, which the
    HTTP client leaves [null], and not the method of the request: the
    line is [METHOD: null]. *)
Theorem rendered_method_null_C4 :
  on_response
    (Response.of_client 200 "OK" [("content-type", "text/plain")]) []
    [Data Example.hello; End_] []
  = Some [ "";
           "-----------------RESPONSE-------------------";
           "METHOD: null";
           "STATUS: 200 - OK";
           "HEADERS: ";
           String "009" "content-type: text/plain";
           "BODY: hello" ].
Proof. reflexivity. Qed.

(** ** The header coercion *)

(** C8: the claim fails on the code.  The test for an earlier value reads
    through the prototype chain, so a key that [Object.prototype] also
    has is reported as overwritten the first time already: two warnings
    for [constructor], and for [__proto__] two warnings and no entry. *)
Theorem overwrite_warning_inherited_key_C8 :
  coerce_headers ["constructor:a"; "constructor:b"] []
  = (Return [("constructor", HStr "b")],
     [ "WARNING: Overwriting header key for constructor";
       "WARNING: Overwriting header key for constructor" ])
  /\ coerce_headers ["__proto__:a"; "__proto__:b"] []
     = (Return [],
        [ "WARNING: Overwriting header key for __proto__";
          "WARNING: Overwriting header key for __proto__" ]).
Proof. split; reflexivity. Qed.

(** The nominal case of C8: for a key that [Object.prototype] does not
    have, two headers with that key up to letter case, and no other
    header with it, leave the second value in the mapping and print the
    overwrite warning for the key once. *)

Lemma for_of_app {A S} (body : S -> A -> M S) (xs ys : list A) (s : S)
    (o : list string) :
  for_of (xs ++ ys) body s o
  = bind (for_of xs body s) (fun s' => for_of ys body s') o.
Proof.
  revert s o. induction xs as [|x xs IH]; intros s o.
  - reflexivity.
  - cbn [app for_of]. unfold bind.
    destruct (body s x o) as [[s1|e] o1]; [|reflexivity].
    rewrite IH. reflexivity.
Qed.

Lemma indexOf_append (c : ascii) (k v : string) :
  Str.indexOf c k = None ->
  Str.indexOf c (k ++ String c v) = Some (String.length k).
Proof.
  induction k as [|a k IH]; cbn [Str.indexOf append String.length].
  - now rewrite Ascii.eqb_refl.
  - destruct (Ascii.eqb a c); [discriminate|].
    destruct (Str.indexOf c k); [discriminate|].
    intros _. now rewrite IH.
Qed.

Lemma substring_all (s : string) : substring 0 (String.length s) s = s.
Proof.
  induction s as [|a s IH]; [reflexivity|]. cbn. now rewrite IH.
Qed.

Lemma substring_skip (a b : string) (n m : nat) :
  substring (String.length a + n) m (a ++ b) = substring n m b.
Proof.
  induction a as [|x a IH]; [reflexivity|]. cbn. apply IH.
Qed.

Lemma substring_from_value (k v : string) (c : ascii) :
  Str.substring_from (String.length k + 1) (k ++ String c v) = v.
Proof.
  unfold Str.substring_from. rewrite substring_skip, length_append.
  cbn [String.length].
  replace (String.length k + S (String.length v) - (String.length k + 1))
    with (String.length v) by lia.
  cbn. apply substring_all.
Qed.

Lemma append_inj_l (p a b : string) : p ++ a = p ++ b -> a = b.
Proof.
  induction p as [|x p IH]; cbn; [auto|]. intros [= E]. auto.
Qed.

Lemma own_set_other {A} (o : Obj.t A) (k k' : string) (v : A) :
  k' <> k -> Obj.own (Obj.set o k v) k' = Obj.own o k'.
Proof.
  intros N. unfold Obj.set. destruct (String.eqb k "__proto__");
    [reflexivity | now apply own_upsert_other].
Qed.

Lemma inherited_proto (k : string) :
  Obj.inherited k = false -> k <> "__proto__".
Proof. intros H ->. discriminate H. Qed.

Section OverwriteOnce.
Variable k : string.
Hypothesis k_fresh : Obj.inherited k = false.

(** A header without the key, or without a colon, leaves the entry of
    the key alone and prints no warning for it. *)
Lemma headers_step_other (h : Obj.t hvalue) (x : string) (o : list string) :
  header_key x <> Some k ->
  exists h' w,
    headers_step h x o = (Return h', (o ++ w)%list)
    /\ Obj.own h' k = Obj.own h k /\ overwrite_warnings k w = 0.
Proof.
  unfold header_key, headers_step. intros N.
  destruct (Str.indexOf ":" x) as [n|].
  - set (k' := Str.toLowerCase (substring 0 n x)) in *.
    assert (k <> k') as N' by congruence.
    destruct (Obj.defined (Obj.get h k')).
    + exists (Obj.set h k' (HStr (Str.substring_from (n + 1) x))),
        [overwrite_warning k'].
      split; [reflexivity|]. split; [now apply own_set_other|].
      unfold overwrite_warnings. cbn [count_occ].
      destruct (string_dec (overwrite_warning k') (overwrite_warning k))
        as [E|]; [|reflexivity].
      apply append_inj_l in E. congruence.
    + exists (Obj.set h k' (HStr (Str.substring_from (n + 1) x))), [].
      split; [unfold bind, ret; now rewrite app_nil_r|].
      split; [now apply own_set_other | reflexivity].
  - exists h, [("WARNING: Invalid header " ++ x)%string].
    split; [reflexivity|]. split; [reflexivity|].
    unfold overwrite_warnings. cbn [count_occ].
    destruct (string_dec ("WARNING: Invalid header " ++ x)
                (overwrite_warning k)) as [E|]; [|reflexivity].
    discriminate E.
Qed.

Lemma headers_loop_other (l : list string) (h : Obj.t hvalue)
    (o : list string) :
  Forall (fun x => header_key x <> Some k) l ->
  exists h' w,
    for_of l headers_step h o = (Return h', (o ++ w)%list)
    /\ Obj.own h' k = Obj.own h k /\ overwrite_warnings k w = 0.
Proof.
  intros F. revert h o. induction F as [|x l N F IH]; intros h o.
  - exists h, []. cbn. unfold ret. now rewrite app_nil_r.
  - destruct (headers_step_other h x o N) as (h1 & w1 & E1 & O1 & C1).
    destruct (IH h1 (o ++ w1)%list) as (h2 & w2 & E2 & O2 & C2).
    exists h2, (w1 ++ w2)%list. cbn [for_of].
    rewrite (bind_Return_l _ _ _ _ _ E1), E2, app_assoc.
    split; [reflexivity|]. split; [congruence|].
    unfold overwrite_warnings in *. rewrite count_occ_app. lia.
Qed.

(** A header with the key stores its value, and prints the warning when
    the key has a value already. *)
Lemma headers_step_key (h : Obj.t hvalue) (k0 v : string) (o : list string) :
  Str.indexOf ":" k0 = None -> Str.toLowerCase k0 = k ->
  exists h' w,
    headers_step h (k0 ++ ":" ++ v) o = (Return h', (o ++ w)%list)
    /\ Obj.own h' k = Some (HStr v)
    /\ overwrite_warnings k w = match Obj.own h k with Some _ => 1 | None => 0 end.
Proof.
  intros I L. unfold headers_step.
  change (k0 ++ ":" ++ v) with (k0 ++ String ":" v).
  rewrite (indexOf_append _ _ _ I), substring_prefix, substring_from_value, L.
  assert (Obj.own (Obj.set h k (HStr v)) k = Some (HStr v)) as S.
  { unfold Obj.set.
    replace (String.eqb k "__proto__") with false
      by (symmetry; apply String.eqb_neq, inherited_proto, k_fresh).
    apply own_upsert_same. }
  unfold Obj.get. rewrite k_fresh. destruct (Obj.own h k) as [old|].
  - exists (Obj.set h k (HStr v)), [overwrite_warning k].
    split; [reflexivity|]. split; [exact S|].
    unfold overwrite_warnings. cbn [count_occ].
    now destruct (string_dec (overwrite_warning k) (overwrite_warning k)).
  - exists (Obj.set h k (HStr v)), []. cbn [Obj.defined].
    split; [unfold bind, ret; now rewrite app_nil_r|].
    split; [exact S | reflexivity].
Qed.

Lemma overwrite_once (l1 l2 l3 : list string) (k1 v1 k2 v2 : string)
    (o : list string) :
  Str.indexOf ":" k1 = None -> Str.toLowerCase k1 = k ->
  Str.indexOf ":" k2 = None -> Str.toLowerCase k2 = k ->
  Forall (fun x => header_key x <> Some k) l1 ->
  Forall (fun x => header_key x <> Some k) l2 ->
  Forall (fun x => header_key x <> Some k) l3 ->
  exists h w,
    coerce_headers
      (l1 ++ [k1 ++ ":" ++ v1] ++ l2 ++ [k2 ++ ":" ++ v2] ++ l3) o
    = (Return h, (o ++ w)%list)
    /\ Obj.get h k = Obj.Own (HStr v2)
    /\ overwrite_warnings k w = 1.
Proof.
  intros I1 L1 I2 L2 F1 F2 F3. unfold coerce_headers.
  destruct (headers_loop_other l1 Obj.empty o F1) as (ha & wa & Ea & Oa & Ca).
  destruct (headers_step_key ha k1 v1 (o ++ wa)%list I1 L1)
    as (hb & wb & Eb & Ob & Cb).
  destruct (headers_loop_other l2 hb ((o ++ wa) ++ wb)%list F2)
    as (hc & wc & Ec & Oc & Cc).
  destruct (headers_step_key hc k2 v2 (((o ++ wa) ++ wb) ++ wc)%list I2 L2)
    as (hd & wd & Ed & Od & Cd).
  destruct (headers_loop_other l3 hd ((((o ++ wa) ++ wb) ++ wc) ++ wd)%list F3)
    as (he & we & Ee & Oe & Ce).
  exists he, (wa ++ wb ++ wc ++ wd ++ we)%list.
  split; [|split].
  - rewrite for_of_app, (bind_Return_l _ _ _ _ _ Ea).
    cbn [app for_of]. rewrite (bind_Return_l _ _ _ _ _ Eb).
    rewrite for_of_app, (bind_Return_l _ _ _ _ _ Ec).
    cbn [app for_of]. rewrite (bind_Return_l _ _ _ _ _ Ed).
    rewrite Ee. now rewrite <- !app_assoc.
  - unfold Obj.get. now rewrite Oe, Od.
  - rewrite Oa in Cb. cbn [Obj.own Obj.empty] in Cb.
    rewrite Oc, Ob in Cd.
    unfold overwrite_warnings in *. rewrite !count_occ_app. lia.
Qed.

End OverwriteOnce.

Example overwrite_once_content_type :
  coerce_headers ["Accept:*/*"; "Content-Type:a"; "oops"; "content-type:b"] []
  = (Return [("accept", HStr "*/*"); ("content-type", HStr "b")],
     [ "WARNING: Invalid header oops";
       "WARNING: Overwriting header key for content-type" ]).
Proof. reflexivity. Qed.

(** ** Checks of the embedding on examples *)

Example urlencoded_pattern :
  urlencodedRegex_test "a=1&b-c=%20" = true
  /\ urlencodedRegex_test "a=" = true
  /\ urlencodedRegex_test "a" = false
  /\ urlencodedRegex_test "=1" = false
  /\ urlencodedRegex_test "a=1&" = false
  /\ urlencodedRegex_test "a b=1" = false.
Proof. repeat split; reflexivity. Qed.

Example enumeration_order :
  Obj.entries (A := string)
    [("b", "1"); ("2", "x"); ("a", "3"); ("10", "z"); ("1", "y"); ("01", "w")]
  = [("1", "y"); ("2", "x"); ("10", "z"); ("b", "1"); ("a", "3"); ("01", "w")].
Proof. reflexivity. Qed.

Example with_json_outcome :
  main Example.P Example.with_json
  = {| console := [];
       requests :=
         [Request.mk "host" "80" "/p"
            [("content-type", HStr "application/json");
             ("content-length", HNum 7)]
            POST Example.five [Utf8.encode json_a1] true] |}.
Proof. reflexivity. Qed.

Example with_odd_data_outcome :
  main Example.P Example.with_odd_data
  = {| console := ["WARNING: Invalid urlencoded body!"];
       requests :=
         [Request.mk "host" "80" "/p" [] POST Example.five [] true] |}.
Proof. reflexivity. Qed.

(** The decoder inverts the encoder. *)
Lemma decode_encode_char (a : ascii) (rest : list byte) :
  Utf8.decode (Utf8.encode_char a ++ rest)
  = option_map (String a) (Utf8.decode rest).
Proof.
  destruct a as [[] [] [] [] [] [] [] []]; reflexivity.
Qed.

Lemma decode_encode (s : string) : Utf8.decode (Utf8.encode s) = Some s.
Proof.
  induction s as [|a s IH]; [reflexivity|].
  cbn [Utf8.encode]. now rewrite decode_encode_char, IH.
Qed.

(** * Further properties of the code *)

(** ** The coercion of the headers *)

Lemma header_key_value_step (h : Obj.t hvalue) (x : string) (o : list string) :
  exists w,
    headers_step h x o
    = (Return match header_key x with
              | Some k => Obj.set h k (HStr (header_value x))
              | None => h
              end, (o ++ w)%list)
    /\ List.length w <= 1.
Proof.
  unfold headers_step, header_key, header_value.
  destruct (Str.indexOf ":" x) as [n|].
  - destruct (Obj.defined _).
    + eexists [_]. split; [reflexivity | cbn; lia].
    + exists []. split; [unfold bind, ret; now rewrite app_nil_r | cbn; lia].
  - eexists [_]. split; [reflexivity | cbn; lia].
Qed.

Lemma own_set_same {A} (o : Obj.t A) (k : string) (v : A) :
  k <> "__proto__" -> Obj.own (Obj.set o k v) k = Some v.
Proof.
  intros N. unfold Obj.set. apply String.eqb_neq in N. rewrite N.
  apply own_upsert_same.
Qed.

Lemma own_set_proto {A} (o : Obj.t A) (k : string) (v : A) :
  Obj.own o "__proto__" = None -> Obj.own (Obj.set o k v) "__proto__" = None.
Proof.
  intros H. unfold Obj.set. destruct (String.eqb k "__proto__") eqn:E;
    [assumption|].
  rewrite own_upsert_other; [assumption|].
  apply String.eqb_neq in E. congruence.
Qed.

Lemma headers_loop_lookup (k : string) (l : list string) (h : Obj.t hvalue)
    (acc : option string) (o : list string) :
  k <> "__proto__" ->
  Obj.own h k = option_map HStr acc ->
  exists h' w,
    for_of l headers_step h o = (Return h', (o ++ w)%list)
    /\ Obj.own h' k = option_map HStr (last_header k l acc)
    /\ List.length w <= List.length l.
Proof.
  intros Np. revert h acc o. induction l as [|x l IH]; intros h acc o Hk.
  - exists h, []. cbn [for_of last_header]. unfold ret.
    rewrite app_nil_r. repeat split; [assumption | cbn; lia].
  - destruct (header_key_value_step h x o) as (w1 & E1 & L1).
    cbn [for_of last_header]. rewrite (bind_Return_l _ _ _ _ _ E1).
    destruct (header_key x) as [k'|] eqn:K.
    + destruct (IH (Obj.set h k' (HStr (header_value x)))
                  (if String.eqb k' k then Some (header_value x) else acc)
                  (o ++ w1)%list) as (h' & w2 & E2 & O2 & L2).
      * destruct (String.eqb_spec k' k) as [->|N].
        -- now rewrite own_set_same.
        -- rewrite own_set_other by congruence. assumption.
      * exists h', (w1 ++ w2)%list. rewrite E2, app_assoc.
        repeat split; try assumption. rewrite length_app. cbn. lia.
    + destruct (IH h acc (o ++ w1)%list Hk) as (h' & w2 & E2 & O2 & L2).
      exists h', (w1 ++ w2)%list. rewrite E2, app_assoc.
      repeat split; try assumption. rewrite length_app. cbn. lia.
Qed.

Lemma headers_loop_proto (l : list string) (h : Obj.t hvalue)
    (o o' : list string) (h' : Obj.t hvalue) :
  Obj.own h "__proto__" = None ->
  for_of l headers_step h o = (Return h', o') ->
  Obj.own h' "__proto__" = None.
Proof.
  revert h o. induction l as [|x l IH]; intros h o Hp.
  - cbn. now intros [= <- _].
  - cbn [for_of]. destruct (header_key_value_step h x o) as (w1 & E1 & _).
    rewrite (bind_Return_l _ _ _ _ _ E1). apply IH.
    destruct (header_key x); [now apply own_set_proto | assumption].
Qed.

(** The lookup of a key after the coercion of the headers. *)
Lemma headers_lookup (l : list string) (o : list string) :
  exists h w,
    coerce_headers l o = (Return h, (o ++ w)%list)
    /\ List.length w <= List.length l
    /\ forall k,
         Obj.own h k
         = if String.eqb k "__proto__" then None
           else option_map HStr (last_header k l None).
Proof.
  destruct (coerce_headers_returns l o) as (h & o' & E).
  destruct (headers_loop_lookup "x" l Obj.empty None o ltac:(discriminate)
              eq_refl) as (h1 & w & E1 & _ & L).
  unfold coerce_headers in *. rewrite E in E1. injection E1 as -> ->.
  exists h1, w. split; [assumption|]. split; [assumption|].
  intros k. destruct (String.eqb_spec k "__proto__") as [->|N].
  - now apply (headers_loop_proto l Obj.empty o (o ++ w)%list).
  - destruct (headers_loop_lookup k l Obj.empty None o N eq_refl)
      as (h2 & w2 & E2 & O2 & _).
    rewrite E in E2. injection E2 as -> _. assumption.
Qed.

(** X1.  The mapping of the headers holds, under every key, the value of
    the last header with that key (lower-cased, cut at the first colon);
    headers without a colon count for nothing; the key [__proto__] is
    never stored.  The coercion prints at most one line for each header
    and keeps what was printed before. *)
Theorem headers_last_write_wins (l : list string) (o : list string) :
  exists h w,
    coerce_headers l o = (Return h, (o ++ w)%list)
    /\ List.length w <= List.length l
    /\ forall k,
         Obj.own h k
         = if String.eqb k "__proto__" then None
           else option_map HStr (last_header k l None).
Proof. exact (headers_lookup l o). Qed.

Lemma header_split (k v : string) :
  free_of ":" k ->
  header_key (k ++ ":" ++ v) = Some (Str.toLowerCase k)
  /\ header_value (k ++ ":" ++ v) = v.
Proof.
  intros F. unfold header_key, header_value.
  change (k ++ ":" ++ v) with (k ++ String ":" v).
  rewrite (indexOf_append _ _ _ F), substring_prefix, substring_from_value.
  now split.
Qed.

Lemma last_header_app (k : string) (l1 l2 : list string) (acc : option string) :
  last_header k (l1 ++ l2) acc = last_header k l2 (last_header k l1 acc).
Proof.
  revert acc. induction l1 as [|x l1 IH]; intros acc; [reflexivity|].
  cbn [app last_header]. apply IH.
Qed.

(** X2.  A header is cut at its first colon: when [k] has no colon, the
    header [k:v] given last is stored under the lower-cased [k] with the
    whole of [v], colons included, whatever the headers before it. *)
Theorem header_cut_at_first_colon (l : list string) (k v : string)
    (o : list string) :
  free_of ":" k ->
  Str.toLowerCase k <> "__proto__" ->
  exists h o',
    coerce_headers (l ++ [k ++ ":" ++ v]) o = (Return h, o')
    /\ Obj.get h (Str.toLowerCase k) = Obj.Own (HStr v).
Proof.
  intros F N.
  destruct (headers_lookup (l ++ [k ++ ":" ++ v]) o)
    as (h & w & E & _ & L).
  exists h, (o ++ w)%list. split; [assumption|].
  unfold Obj.get. rewrite L. apply String.eqb_neq in N. rewrite N.
  rewrite last_header_app. cbn [last_header].
  destruct (header_split k v F) as [-> ->]. now rewrite String.eqb_refl.
Qed.

Lemma header_cut_at_first_colon_witness :
  free_of ":" "Host"
  /\ Str.toLowerCase "Host" <> "__proto__"
  /\ exists h o',
       coerce_headers (["host:a"] ++ ["Host" ++ ":" ++ "b:80"]) []
       = (Return h, o')
       /\ Obj.get h (Str.toLowerCase "Host") = Obj.Own (HStr "b:80").
Proof.
  split; [reflexivity|]. split; [discriminate|].
  exact (header_cut_at_first_colon ["host:a"] "Host" "b:80" []
           eq_refl ltac:(discriminate)).
Defined.

(** ** Invariants of the mappings *)

Lemma for_of_invariant {A S} (body : S -> A -> M S) (I : S -> Prop) :
  (forall s x o s' o', I s -> body s x o = (Return s', o') -> I s') ->
  forall xs s o s' o',
    I s -> for_of xs body s o = (Return s', o') -> I s'.
Proof.
  intros Hb xs. induction xs as [|x xs IH]; intros s o s' o' Hs.
  - cbn. now intros [= <- _].
  - cbn [for_of]. intros H. apply bind_Return in H as (s1 & o1 & E1 & E2).
    eapply IH; [|exact E2]. eapply Hb; eassumption.
Qed.

Section MappingInvariant.
Context {A : Type}.
Variable Q : string * A -> Prop.

Lemma upsert_keys (o : Obj.t A) (k : string) (v : A) (k' : string) :
  In k' (map fst (Obj.upsert o k v)) <-> In k' (map fst o) \/ k' = k.
Proof.
  induction o as [|[k0 v0] o IH]; cbn.
  - intuition.
  - destruct (String.eqb_spec k0 k) as [->|N]; cbn; [intuition|].
    rewrite IH. intuition.
Qed.

Lemma upsert_NoDup (o : Obj.t A) (k : string) (v : A) :
  NoDup (map fst o) -> NoDup (map fst (Obj.upsert o k v)).
Proof.
  induction o as [|[k0 v0] o IH]; cbn; intros H.
  - constructor; [intros [] | constructor].
  - inversion H as [|? ? Hn Hd]; subst.
    destruct (String.eqb_spec k0 k) as [->|N]; cbn.
    + now constructor.
    + constructor; [|auto]. rewrite upsert_keys. intuition.
Qed.

Lemma upsert_Forall (o : Obj.t A) (k : string) (v : A) :
  Q (k, v) -> Forall Q o -> Forall Q (Obj.upsert o k v).
Proof.
  intros Hq. induction o as [|[k0 v0] o IH]; cbn; intros H.
  - now constructor.
  - inversion H; subst.
    destruct (String.eqb_spec k0 k) as [->|N]; constructor; auto.
Qed.

Lemma set_well_formed (o : Obj.t A) (k : string) (v : A) :
  Q (k, v) -> well_formed Q o -> well_formed Q (Obj.set o k v).
Proof.
  intros Hq (Hd & Hp & Hf). unfold Obj.set.
  destruct (String.eqb_spec k "__proto__") as [->|N]; [now repeat split|].
  repeat split.
  - now apply upsert_NoDup.
  - rewrite upsert_keys. intuition.
  - now apply upsert_Forall.
Qed.

End MappingInvariant.

Lemma lower_char_idempotent (a : ascii) :
  Str.lower_char (Str.lower_char a) = Str.lower_char a.
Proof.
  destruct a as [[] [] [] [] [] [] [] []]; reflexivity.
Qed.

Lemma toLowerCase_idempotent (s : string) :
  Str.toLowerCase (Str.toLowerCase s) = Str.toLowerCase s.
Proof.
  induction s as [|a s IH]; [reflexivity|].
  cbn. now rewrite lower_char_idempotent, IH.
Qed.

Lemma lower_char_colon (a : ascii) :
  Ascii.eqb (Str.lower_char a) ":" = Ascii.eqb a ":".
Proof.
  destruct a as [[] [] [] [] [] [] [] []]; reflexivity.
Qed.

Lemma toLowerCase_free_of_colon (s : string) :
  free_of ":" s -> free_of ":" (Str.toLowerCase s).
Proof.
  unfold free_of. induction s as [|a s IH]; [reflexivity|].
  cbn. rewrite lower_char_colon. destruct (Ascii.eqb a ":"); [discriminate|].
  destruct (Str.indexOf ":" s); [discriminate|]. intros _.
  now rewrite IH.
Qed.

(** The text before the first occurrence of a character is free of it. *)
Lemma prefix_free_of (c : ascii) (s : string) (n : nat) :
  Str.indexOf c s = Some n -> free_of c (substring 0 n s).
Proof.
  unfold free_of. revert n. induction s as [|a s IH]; intros n; [discriminate|].
  cbn [Str.indexOf]. destruct (Ascii.eqb a c) eqn:E.
  - intros [= <-]. reflexivity.
  - destruct (Str.indexOf c s) as [m|]; [|discriminate].
    intros [= <-]. cbn. rewrite E. now rewrite (IH m eq_refl).
Qed.

(** A piece of a text free of a character is free of it. *)
Lemma substring_free_of (c : ascii) (s : string) (n m : nat) :
  free_of c s -> free_of c (substring n m s).
Proof.
  unfold free_of. revert n m. induction s as [|a s IH]; intros n m.
  - now destruct n, m.
  - cbn [Str.indexOf]. destruct (Ascii.eqb a c) eqn:E; [discriminate|].
    destruct (Str.indexOf c s) eqn:Es; [discriminate|]. intros _.
    destruct n as [|n]; [destruct m as [|m]|]; cbn; [reflexivity| |now apply IH].
    rewrite E. now rewrite (IH 0 m eq_refl).
Qed.

(** X3.  The mapping of the headers has unique keys, each in lower case
    and free of colons, and none of them [__proto__]. *)
Theorem headers_keys_invariant (l : list string) (o : list string) :
  exists h o',
    coerce_headers l o = (Return h, o')
    /\ NoDup (map fst h)
    /\ Forall (fun k => Str.toLowerCase k = k /\ free_of ":" k
                        /\ k <> "__proto__") (map fst h).
Proof.
  destruct (coerce_headers_returns l o) as (h & o' & E).
  exists h, o'. split; [assumption|].
  assert (well_formed
            (fun p : string * hvalue =>
               Str.toLowerCase (fst p) = fst p /\ free_of ":" (fst p)) h)
    as (Hd & Hp & Hf).
  { unfold coerce_headers in E.
    refine (for_of_invariant headers_step _ _ l Obj.empty o h o' _ E).
    - intros s x o1 s' o1' Hs Hstep.
      destruct (header_key_value_step s x o1) as (w & Ew & _).
      rewrite Ew in Hstep. injection Hstep as <- _.
      unfold header_key. destruct (Str.indexOf ":" x) as [n|] eqn:I;
        [|assumption].
      apply set_well_formed; [|assumption]. cbn [fst]. split.
      + apply toLowerCase_idempotent.
      + now apply toLowerCase_free_of_colon, prefix_free_of.
    - split; [constructor|]. split; [intros []|constructor]. }
  split; [assumption|].
  rewrite Forall_forall in *. intros k Hk.
  apply in_map_iff in Hk as ([k' v] & <- & Hin). cbn [fst].
  destruct (Hf _ Hin) as [H1 H2]. repeat split; try assumption.
  intros ->. apply Hp. change "__proto__" with (fst ("__proto__", v)).
  now apply in_map.
Qed.

(** ** The coercion of the queries *)

Lemma split_nonempty (c : ascii) (s : string) : Str.split c s <> [].
Proof.
  destruct s as [|a s]; cbn; [discriminate|].
  destruct (Ascii.eqb a c); [discriminate|].
  destruct (Str.split c s); discriminate.
Qed.

Lemma split_append (c : ascii) (a b : string) :
  Str.split c (a ++ String c b) = (Str.split c a ++ Str.split c b)%list.
Proof.
  induction a as [|x a IH]; cbn [append Str.split].
  - now rewrite Ascii.eqb_refl.
  - destruct (Ascii.eqb x c); [now rewrite IH|].
    rewrite IH. destruct (Str.split c a) eqn:E; [|reflexivity].
    now apply split_nonempty in E.
Qed.

(** The parts of a text are free of the separator. *)
Lemma split_free_of (c : ascii) (s : string) :
  Forall (free_of c) (Str.split c s).
Proof.
  induction s as [|a s IH]; cbn [Str.split].
  - constructor; [reflexivity | constructor].
  - destruct (Ascii.eqb a c) eqn:E; [constructor; [reflexivity|assumption]|].
    destruct (Str.split c s) as [|p ps].
    + constructor; [|constructor]. unfold free_of. cbn. now rewrite E.
    + inversion IH as [|? ? Hp Hps]; subst. constructor; [|assumption].
      unfold free_of in *. cbn. now rewrite E, Hp.
Qed.

(** Joining the parts gives the text back. *)
Lemma split_join (c : ascii) (s : string) :
  String.concat (String c "") (Str.split c s) = s.
Proof.
  induction s as [|a s IH]; [reflexivity|]. cbn [Str.split].
  destruct (Ascii.eqb_spec a c) as [->|N].
  - rewrite concat_cons by apply split_nonempty. now rewrite IH.
  - destruct (Str.split c s) as [|p ps] eqn:E; [now apply split_nonempty in E|].
    destruct ps as [|p' ps].
    + cbn in *. now rewrite IH.
    + rewrite concat_cons by discriminate.
      rewrite concat_cons in IH by discriminate. now rewrite <- IH.
Qed.

(** The two loops of the coercion are one loop over all the parts. *)
Lemma coerce_queries_parts (qs : list string) (q0 : Obj.t string)
    (o : list string) :
  for_of qs
    (fun parsedQueries query =>
       for_of (Str.split "&" query) queries_step parsedQueries) q0 o
  = for_of (query_parts qs) queries_step q0 o.
Proof.
  revert q0 o. induction qs as [|q qs IH]; intros q0 o; [reflexivity|].
  cbn [for_of query_parts flat_map]. rewrite for_of_app.
  unfold bind. destruct (for_of (Str.split "&" q) queries_step q0 o)
    as [[q1|e] o1]; [apply IH | reflexivity].
Qed.

(** X4.  Query strings given one by one and the same strings joined by
    [&] in one argument are coerced alike: same mapping, same warnings. *)
Theorem queries_joined_alike (q1 q2 : string) (qs : list string)
    (o : list string) :
  coerce_queries (q1 :: q2 :: qs) o
  = coerce_queries ((q1 ++ "&" ++ q2) :: qs) o.
Proof.
  unfold coerce_queries. rewrite !coerce_queries_parts.
  cbn [query_parts flat_map].
  change (q1 ++ "&" ++ q2) with (q1 ++ String "&" q2).
  now rewrite split_append, app_assoc.
Qed.

Lemma query_key_value_step (q : Obj.t string) (x : string) (o : list string) :
  exists w,
    queries_step q x o
    = (Return match query_key x with
              | Some k => Obj.set q k (query_value x)
              | None => q
              end, (o ++ w)%list)
    /\ List.length w <= 1.
Proof.
  unfold queries_step, query_key, query_value.
  destruct (Str.indexOf "=" x) as [n|].
  - destruct (Obj.defined _).
    + eexists [_]. split; [reflexivity | cbn; lia].
    + exists []. split; [unfold bind, ret; now rewrite app_nil_r | cbn; lia].
  - eexists [_]. split; [reflexivity | cbn; lia].
Qed.

Lemma queries_loop_lookup (k : string) (l : list string) (q : Obj.t string)
    (acc : option string) (o : list string) :
  k <> "__proto__" ->
  Obj.own q k = acc ->
  exists q' w,
    for_of l queries_step q o = (Return q', (o ++ w)%list)
    /\ Obj.own q' k = last_query k l acc
    /\ List.length w <= List.length l.
Proof.
  intros Np. revert q acc o. induction l as [|x l IH]; intros q acc o Hk.
  - exists q, []. cbn [for_of last_query]. unfold ret.
    rewrite app_nil_r. repeat split; [assumption | cbn; lia].
  - destruct (query_key_value_step q x o) as (w1 & E1 & L1).
    cbn [for_of last_query]. rewrite (bind_Return_l _ _ _ _ _ E1).
    destruct (query_key x) as [k'|] eqn:K.
    + destruct (IH (Obj.set q k' (query_value x))
                  (if String.eqb k' k then Some (query_value x) else acc)
                  (o ++ w1)%list) as (q' & w2 & E2 & O2 & L2).
      * destruct (String.eqb_spec k' k) as [->|N].
        -- now rewrite own_set_same.
        -- rewrite own_set_other by congruence. assumption.
      * exists q', (w1 ++ w2)%list. rewrite E2, app_assoc.
        repeat split; try assumption. rewrite length_app. cbn. lia.
    + destruct (IH q acc (o ++ w1)%list Hk) as (q' & w2 & E2 & O2 & L2).
      exists q', (w1 ++ w2)%list. rewrite E2, app_assoc.
      repeat split; try assumption. rewrite length_app. cbn. lia.
Qed.

Lemma queries_loop_proto (l : list string) (q : Obj.t string)
    (o o' : list string) (q' : Obj.t string) :
  Obj.own q "__proto__" = None ->
  for_of l queries_step q o = (Return q', o') ->
  Obj.own q' "__proto__" = None.
Proof.
  revert q o. induction l as [|x l IH]; intros q o Hp.
  - cbn. now intros [= <- _].
  - cbn [for_of]. destruct (query_key_value_step q x o) as (w1 & E1 & _).
    rewrite (bind_Return_l _ _ _ _ _ E1). apply IH.
    destruct (query_key x); [now apply own_set_proto | assumption].
Qed.

(** X5.  The mapping of the queries holds, under every key, the value of
    the last part [key=value] with that key among the parts of all the
    query strings, each part cut at its first equals sign; parts without
    one count for nothing; the key [__proto__] is never stored.  The
    coercion prints at most one line for each part. *)
Theorem queries_last_write_wins (qs : list string) (o : list string) :
  exists q w,
    coerce_queries qs o = (Return q, (o ++ w)%list)
    /\ List.length w <= List.length (query_parts qs)
    /\ forall k,
         Obj.own q k
         = if String.eqb k "__proto__" then None
           else last_query k (query_parts qs) None.
Proof.
  destruct (coerce_queries_returns qs o) as (q & o' & E).
  pose proof E as E'. unfold coerce_queries in E'.
  rewrite coerce_queries_parts in E'.
  destruct (queries_loop_lookup "x" (query_parts qs) Obj.empty None o
              ltac:(discriminate) eq_refl) as (q1 & w & E1 & _ & L).
  rewrite E' in E1. injection E1 as -> ->.
  exists q1, w. split; [assumption|]. split; [assumption|].
  intros k. destruct (String.eqb_spec k "__proto__") as [->|N].
  - now apply (queries_loop_proto (query_parts qs) Obj.empty o (o ++ w)%list).
  - destruct (queries_loop_lookup k (query_parts qs) Obj.empty None o N
                eq_refl) as (q2 & w2 & E2 & O2 & _).
    rewrite E' in E2. injection E2 as -> _. assumption.
Qed.

Lemma for_of_invariant_on {A S} (body : S -> A -> M S) (R : A -> Prop)
    (I : S -> Prop) :
  (forall s x o s' o', R x -> I s -> body s x o = (Return s', o') -> I s') ->
  forall xs s o s' o',
    Forall R xs -> I s -> for_of xs body s o = (Return s', o') -> I s'.
Proof.
  intros Hb xs. induction xs as [|x xs IH]; intros s o s' o' F Hs.
  - cbn. now intros [= <- _].
  - cbn [for_of]. intros H. apply bind_Return in H as (s1 & o1 & E1 & E2).
    inversion F; subst.
    eapply IH; [eassumption | | exact E2]. eapply Hb; eassumption.
Qed.

Lemma query_parts_free_of (qs : list string) :
  Forall (free_of "&") (query_parts qs).
Proof.
  induction qs as [|q qs IH]; [constructor|].
  cbn [query_parts flat_map]. apply Forall_app. split; [|exact IH].
  apply split_free_of.
Qed.

(** X6.  The mapping of the queries has unique keys, none of them
    [__proto__]; no key holds [=] or [&] and no value holds [&], so that
    the pairs can be told apart again in the path built from them. *)
Theorem queries_keys_invariant (qs : list string) (o : list string) :
  exists q o',
    coerce_queries qs o = (Return q, o')
    /\ NoDup (map fst q)
    /\ Forall (fun p : string * string =>
                 free_of "=" (fst p) /\ free_of "&" (fst p)
                 /\ free_of "&" (snd p) /\ fst p <> "__proto__") q.
Proof.
  destruct (coerce_queries_returns qs o) as (q & o' & E).
  exists q, o'. split; [assumption|].
  unfold coerce_queries in E. rewrite coerce_queries_parts in E.
  assert (well_formed
            (fun p : string * string =>
               free_of "=" (fst p) /\ free_of "&" (fst p)
               /\ free_of "&" (snd p)) q) as (Hd & Hp & Hf).
  { refine (for_of_invariant_on queries_step (free_of "&") _ _
              (query_parts qs) Obj.empty o q o' (query_parts_free_of qs) _ E).
    - intros s x o1 s' o1' Hx Hs Hstep.
      destruct (query_key_value_step s x o1) as (w & Ew & _).
      rewrite Ew in Hstep. injection Hstep as <- _.
      unfold query_key, query_value.
      destruct (Str.indexOf "=" x) as [n|] eqn:I; [|assumption].
      apply set_well_formed; [|assumption]. cbn [fst snd]. repeat split.
      + now apply prefix_free_of.
      + now apply substring_free_of.
      + now apply substring_free_of.
    - split; [constructor|]. split; [intros []|constructor]. }
  split; [assumption|].
  rewrite Forall_forall in *. intros [k v] Hin.
  destruct (Hf _ Hin) as (H1 & H2 & H3). repeat split; try assumption.
  cbn [fst]. intros ->. apply Hp.
  change "__proto__" with (fst ("__proto__", v)). now apply in_map.
Qed.

(** ** From the query option to the path *)

Lemma split_free (c : ascii) (s : string) :
  free_of c s -> Str.split c s = [s].
Proof.
  unfold free_of. induction s as [|a s IH]; [reflexivity|].
  cbn [Str.indexOf Str.split]. destruct (Ascii.eqb a c); [discriminate|].
  destruct (Str.indexOf c s); [discriminate|]. intros _.
  now rewrite IH.
Qed.

Lemma split_concat (c : ascii) (parts : list string) :
  parts <> [] -> Forall (free_of c) parts ->
  Str.split c (String.concat (String c "") parts) = parts.
Proof.
  induction parts as [|p parts IH]; [congruence|]. intros _ F.
  inversion F as [|? ? Hp Hps]; subst.
  destruct parts as [|p' parts].
  - cbn. now apply split_free.
  - rewrite concat_cons by discriminate.
    change (p ++ String c "" ++ String.concat (String c "") (p' :: parts))
      with (p ++ String c (String.concat (String c "") (p' :: parts))).
    rewrite split_append, (split_free _ _ Hp), IH by (discriminate || assumption).
    reflexivity.
Qed.

Lemma free_of_append (c : ascii) (a b : string) :
  free_of c a -> free_of c b -> free_of c (a ++ b).
Proof.
  unfold free_of. induction a as [|x a IH]; [auto|].
  cbn [Str.indexOf append]. destruct (Ascii.eqb x c); [discriminate|].
  destruct (Str.indexOf c a); [discriminate|]. intros _ Hb.
  now rewrite IH.
Qed.

Lemma query_split (k v : string) :
  free_of "=" k ->
  query_key (pair_text (k, v)) = Some k /\ query_value (pair_text (k, v)) = v.
Proof.
  intros F. unfold query_key, query_value, pair_text. cbn [fst snd].
  change (k ++ "=" ++ v) with (k ++ String "=" v).
  rewrite (indexOf_append _ _ _ F), substring_prefix, substring_from_value.
  now split.
Qed.

Lemma own_None_keys {A} (o : Obj.t A) (k : string) :
  ~ In k (map fst o) -> Obj.own o k = None.
Proof.
  induction o as [|[k0 v0] o IH]; [reflexivity|]. cbn. intros N.
  destruct (String.eqb_spec k0 k) as [->|]; [intuition|]. apply IH. intuition.
Qed.

Lemma upsert_fresh {A} (o : Obj.t A) (k : string) (v : A) :
  ~ In k (map fst o) -> Obj.upsert o k v = (o ++ [(k, v)])%list.
Proof.
  induction o as [|[k0 v0] o IH]; [reflexivity|]. cbn. intros N.
  destruct (String.eqb_spec k0 k) as [->|]; [intuition|].
  rewrite IH; [reflexivity | intuition].
Qed.

(** Parts with fresh keys are stored one after the other, silently. *)
Lemma queries_loop_plain (pairs : list (string * string)) (q : Obj.t string)
    (o : list string) :
  NoDup (map fst (q ++ pairs)) -> Forall plain_pair pairs ->
  for_of (map pair_text pairs) queries_step q o
  = (Return (q ++ pairs)%list, o).
Proof.
  revert q. induction pairs as [|[k v] pairs IH]; intros q Hd F.
  - cbn. unfold ret. now rewrite app_nil_r.
  - inversion F as [|? ? (Fe & Fa & Fv & Fi & Fx) F']; subst.
    cbn [fst snd] in *. cbn [map for_of].
    assert (~ In k (map fst q)) as Hk.
    { rewrite map_app in Hd. cbn in Hd. apply NoDup_remove_2 in Hd.
      rewrite in_app_iff in Hd. intuition. }
    assert (queries_step q (pair_text (k, v)) o
            = (Return (q ++ [(k, v)])%list, o)) as E.
    { destruct (query_key_value_step q (pair_text (k, v)) o) as (w & E & _).
      unfold queries_step in *.
      destruct (query_split k v Fe) as [Ek Ev].
      unfold query_key, query_value in Ek, Ev.
      destruct (Str.indexOf "=" (pair_text (k, v))) as [n|]; [|discriminate].
      injection Ek as Ek. rewrite Ek, Ev.
      unfold Obj.get. rewrite (own_None_keys q k Hk), Fi. cbn [Obj.defined].
      unfold bind, ret, Obj.set.
      replace (String.eqb k "__proto__") with false
        by (symmetry; apply String.eqb_neq, inherited_proto, Fi).
      now rewrite upsert_fresh. }
    rewrite (bind_Return_l _ _ _ _ _ E), IH.
    + now rewrite <- app_assoc.
    + now rewrite <- app_assoc.
    + assumption.
Qed.

Lemma entries_plain (pairs : list (string * string)) :
  Forall plain_pair pairs -> Obj.entries pairs = pairs.
Proof.
  intros F. unfold Obj.entries.
  assert (filter (fun p : string * string => Obj.is_index (fst p)) pairs = []
          /\ filter (fun p : string * string => negb (Obj.is_index (fst p)))
               pairs = pairs) as [-> ->]; [|reflexivity].
  induction F as [|p pairs (_ & _ & _ & _ & Fx) F [IH1 IH2]]; [now split|].
  cbn [filter]. rewrite Fx. cbn. now rewrite IH1, IH2.
Qed.

(** X7.  A query string of plain pairs with distinct keys comes back
    verbatim: the coercion of [k1=v1&...&kn=vn] is the list of the pairs
    in order, without a warning, and the path built from it is the
    pathname, [?] and the query string as given. *)
Theorem query_round_trip (url : URL.t) (pairs : list (string * string))
    (o : list string) :
  pairs <> [] ->
  NoDup (map fst pairs) ->
  Forall plain_pair pairs ->
  coerce_queries [query_text pairs] o = (Return pairs, o)
  /\ requestPath url pairs = URL.pathname url ++ "?" ++ query_text pairs.
Proof.
  intros Hn Hd F. split.
  - unfold coerce_queries. rewrite coerce_queries_parts.
    cbn [query_parts flat_map]. rewrite app_nil_r.
    unfold query_text. rewrite split_concat.
    + apply (queries_loop_plain pairs Obj.empty o); assumption.
    + now destruct pairs.
    + rewrite Forall_map. eapply Forall_impl; [|exact F].
      intros [k v] (_ & Fa & Fv & _). unfold pair_text. cbn [fst snd] in *.
      apply free_of_append; [assumption|].
      apply (free_of_append _ "=" v); [reflexivity | assumption].
  - rewrite requestPath_eq, (entries_plain pairs F). unfold query_suffix.
    now destruct pairs.
Qed.

Lemma query_round_trip_witness :
  [("a", "1"); ("b", "x=y")] <> []
  /\ NoDup (map fst [("a", "1"); ("b", "x=y")])
  /\ Forall plain_pair [("a", "1"); ("b", "x=y")]
  /\ coerce_queries [query_text [("a", "1"); ("b", "x=y")]] []
     = (Return [("a", "1"); ("b", "x=y")], [])
  /\ requestPath (URL.mk "host" "/search" "") [("a", "1"); ("b", "x=y")]
     = "/search" ++ "?" ++ query_text [("a", "1"); ("b", "x=y")].
Proof.
  assert ([("a", "1"); ("b", "x=y")] <> []) as H1 by discriminate.
  assert (NoDup (map fst [("a", "1"); ("b", "x=y")])) as H2.
  { cbn. constructor; [intros [E|[]]; discriminate E|].
    constructor; [intros []|constructor]. }
  assert (Forall plain_pair [("a", "1"); ("b", "x=y")]) as H3
    by (repeat constructor).
  split; [exact H1|]. split; [exact H2|]. split; [exact H3|].
  exact (query_round_trip (URL.mk "host" "/search" "") _ [] H1 H2 H3).
Defined.

(** ** Validation, check by check *)

Lemma check_url_spec (P : platform) (argv : Args.t) (o : list string) :
  check_url P argv o
  = match Args.positional argv with
    | [u] => match URL_new P u with
             | Return _ => (Return tt, o)
             | Throw m => (Throw (logERRORWrapper m), o)
             end
    | _ => (Throw "ERROR: You must provide a url", o)
    end.
Proof.
  unfold check_url. destruct (Args.positional argv) as [|u [|]];
    try reflexivity.
  now destruct (URL_new P u).
Qed.

(** What the checks require of the arguments they pass. *)
Lemma checks_pass_only_if (P : platform) (argv a : Args.t) (o o' : list string) :
  checks P argv o = (Return a, o') ->
  (exists u url, Args.positional argv = [u] /\ URL_new P u = Return url)
  /\ (given (Args.data argv) && given (Args.json argv))
     || (given (Args.data argv) && given (Args.file argv))
     || (given (Args.json argv) && given (Args.file argv)) = false
  /\ (forall f, Args.file argv = Some f ->
      exists bytes, readFileSync P f = Return bytes)
  /\ (exists t, Args.timeout argv = Some (Finite t)).
Proof.
  intros H. pose proof H as H'.
  apply checks_Return in H' as (_ & Hu & Hd & Hf & Ht).
  split; [assumption|]. split; [|split; [assumption|]].
  - unfold checks in H.
    apply bind_Return in H as ([] & o1 & _ & H).
    apply bind_Return in H as ([] & o2 & _ & H).
    apply bind_Return in H as ([] & o3 & Hj & _).
    unfold check_json in Hj.
    destruct (Args.data argv) as [d|].
    + destruct (Hd eq_refl) as [-> ->]. reflexivity.
    + destruct (Args.json argv) as [j|]; [|reflexivity].
      destruct (Args.file argv); [discriminate | reflexivity].
  - destruct (Args.timeout argv) as [[|t]|]; try discriminate. eauto.
Qed.

(** What validation requires of the invocations it passes. *)
Lemma setupYargs_pass_only_if (P : platform) (raw : Raw.t) (args : Args.t)
    (o o' : list string) :
  setupYargs P raw o = (Return args, o') ->
  url_valid P raw
  /\ conflicting raw = false
  /\ (forall f, Raw.file raw = Some f ->
      exists bytes, readFileSync P f = Return bytes)
  /\ (exists t, Raw.timeout raw = Some (Finite t)).
Proof.
  destruct (setupYargs_checks P raw o) as (h & q & o1 & o2 & _ & _ & ->).
  apply checks_pass_only_if.
Qed.

(** X8.  Validation passes only when the positional arguments are one
    valid URL, at most one of [data], [json] and [file] is given, a given
    file can be read, and a timeout is given that is a number; the
    arguments it returns are the ones given, with the headers and the
    queries coerced. *)
Theorem validation_passes_only_if (P : platform) (raw : Raw.t)
    (args : Args.t) (o o' : list string) :
  setupYargs P raw o = (Return args, o') ->
  url_valid P raw
  /\ conflicting raw = false
  /\ (forall f, Raw.file raw = Some f ->
      exists bytes, readFileSync P f = Return bytes)
  /\ (exists t, Raw.timeout raw = Some (Finite t))
  /\ exists h q wh wq,
       (forall oa,
           coerce_headers (Raw.headers raw) oa = (Return h, (oa ++ wh)%list))
       /\ (forall oa,
              coerce_queries (Raw.queries raw) oa
              = (Return q, (oa ++ wq)%list))
       /\ args
          = Args.mk (Raw.positional raw) (Raw.method raw) h q (Raw.data raw)
              (Raw.json raw) (Raw.file raw) (Raw.timeout raw) (Raw.body raw).
Proof.
  intros H. pose proof (setupYargs_pass_only_if P raw args o o' H)
    as (H1 & H2 & H3 & H4).
  repeat (split; [assumption|]).
  destruct (setupYargs_checks P raw o) as (h & q & w & o2 & Eh & Eq & E).
  rewrite E in H. apply checks_Return in H as (-> & _).
  exists h, q, (fst w), (snd w). now repeat split.
Qed.

Lemma validation_passes_only_if_witness :
  setupYargs Example.P Example.with_data []
  = (Return (Args.mk ["http://host/p?x=1"] POST [] [] (Some "a=1") None None
               Example.five None), [])
  /\ url_valid Example.P Example.with_data
  /\ conflicting Example.with_data = false
  /\ (forall f, Raw.file Example.with_data = Some f ->
      exists bytes, readFileSync Example.P f = Return bytes)
  /\ (exists t, Raw.timeout Example.with_data = Some (Finite t))
  /\ exists h q wh wq,
       (forall oa,
           coerce_headers (Raw.headers Example.with_data) oa
           = (Return h, (oa ++ wh)%list))
       /\ (forall oa,
              coerce_queries (Raw.queries Example.with_data) oa
              = (Return q, (oa ++ wq)%list))
       /\ Args.mk ["http://host/p?x=1"] POST [] [] (Some "a=1") None None
            Example.five None
          = Args.mk (Raw.positional Example.with_data)
              (Raw.method Example.with_data) h q (Raw.data Example.with_data)
              (Raw.json Example.with_data) (Raw.file Example.with_data)
              (Raw.timeout Example.with_data) (Raw.body Example.with_data).
Proof.
  split; [reflexivity|].
  exact (validation_passes_only_if Example.P Example.with_data _ [] []
           eq_refl).
Defined.

(** X9.  A [file] option whose file cannot be read makes no request; when
    it is the only body option and the URL is valid, the last line
    printed is the error of the read. *)
Theorem unreadable_file_rejected (P : platform) (raw : Raw.t)
    (f message : string) :
  Raw.file raw = Some f ->
  readFileSync P f = Throw message ->
  requests (main P raw) = []
  /\ (url_valid P raw -> Raw.data raw = None -> Raw.json raw = None ->
      exists w, console (main P raw) = (w ++ [logERRORWrapper message])%list).
Proof.
  intros Ef Er.
  destruct (setupYargs_checks P raw []) as (h & q & o1 & o2 & _ & _ & E).
  unfold main. rewrite E.
  set (argv := Args.mk _ _ _ _ _ _ _ _ _) in *.
  destruct (checks P argv o2) as [[a|e] o'] eqn:Ec.
  - exfalso.
    apply checks_pass_only_if in Ec as (_ & _ & Hf & _).
    destruct (Hf f Ef) as (bytes & Hb). congruence.
  - split; [reflexivity|]. intros (u & url & Ep & Eu) Ed Ej.
    exists o'. cbn [console]. f_equal. f_equal.
    unfold checks in Ec.
    rewrite (bind_Return_l (check_url P argv) _ o2 o2 tt) in Ec
      by (rewrite check_url_spec; subst argv; cbn [Args.positional];
          now rewrite Ep, Eu).
    unfold bind, check_data, check_json, check_file in Ec.
    subst argv. cbn [Args.data Args.json Args.file] in Ec.
    rewrite Ed, Ej, Ef, Er in Ec. cbn in Ec. unfold ret, throw in Ec.
    now injection Ec as <- _.
Qed.

Lemma unreadable_file_rejected_witness :
  Raw.file Example.missing_file = Some "body.bin"
  /\ readFileSync Example.P "body.bin"
     = Throw "ENOENT: no such file or directory"
  /\ requests (main Example.P Example.missing_file) = []
  /\ (url_valid Example.P Example.missing_file ->
      Raw.data Example.missing_file = None ->
      Raw.json Example.missing_file = None ->
      exists w,
        console (main Example.P Example.missing_file)
        = (w ++ [logERRORWrapper "ENOENT: no such file or directory"])%list).
Proof.
  split; [reflexivity|]. split; [reflexivity|].
  exact (unreadable_file_rejected Example.P Example.missing_file
           "body.bin" "ENOENT: no such file or directory" eq_refl eq_refl).
Defined.

(** X10.  The URL check comes before every other check: without exactly
    one positional argument the invocation ends, after the warnings of
    the coercions, with [You must provide a url], and with one argument
    that is no URL with the message of the URL parser, whatever the other
    options are; no request is made. *)
Theorem url_check_first (P : platform) (raw : Raw.t) :
  (List.length (Raw.positional raw) <> 1 ->
   requests (main P raw) = []
   /\ exists w,
        console (main P raw) = (w ++ ["ERROR: You must provide a url"])%list)
  /\ (forall u message,
         Raw.positional raw = [u] -> URL_new P u = Throw message ->
         requests (main P raw) = []
         /\ exists w,
              console (main P raw) = (w ++ [logERRORWrapper message])%list).
Proof.
  destruct (setupYargs_checks P raw []) as (h & q & o1 & o2 & _ & _ & E).
  unfold main. rewrite E. unfold checks.
  split.
  - intros L. rewrite (bind_Throw_l _ _ _ o2 "ERROR: You must provide a url").
    + split; [reflexivity | now exists o2].
    + rewrite check_url_spec. cbn [Args.positional].
      destruct (Raw.positional raw) as [|u [|]]; try reflexivity.
      now contradiction L.
  - intros u message Ep Eu.
    rewrite (bind_Throw_l _ _ _ o2 (logERRORWrapper message)).
    + split; [reflexivity | now exists o2].
    + rewrite check_url_spec. cbn [Args.positional]. now rewrite Ep, Eu.
Qed.

(** X11.  The third error on conflicting options is never reported: when
    the [file] check is reached, the [data] and [json] checks have
    passed, [file] is then not given together with [data] or [json], and
    the check comes down to the read of the file. *)
Theorem file_conflict_unreachable (P : platform) (argv : Args.t)
    (o o1 o2 : list string) :
  check_data argv o = (Return tt, o1) ->
  check_json P argv o1 = (Return tt, o2) ->
  given (Args.file argv) && (given (Args.data argv) || given (Args.json argv))
  = false
  /\ check_file P argv o2
     = match Args.file argv with
       | Some f =>
           match readFileSync P f with
           | Return _ => (Return tt, o2)
           | Throw message => (Throw (logERRORWrapper message), o2)
           end
       | None => (Return tt, o2)
       end.
Proof.
  intros Hd Hj.
  assert (given (Args.file argv)
          && (given (Args.data argv) || given (Args.json argv)) = false) as C.
  { unfold check_data in Hd. unfold check_json in Hj.
    destruct (Args.data argv), (Args.json argv), (Args.file argv);
      cbn in *; try reflexivity; discriminate. }
  split; [exact C|]. unfold check_file. rewrite C.
  destruct (Args.file argv) as [f|]; [|reflexivity].
  now destruct (readFileSync P f).
Qed.

Lemma file_conflict_unreachable_witness :
  check_data (Args.mk ["http://host/p?x=1"] POST [] [] None None
                (Some "body.bin") Example.five None) [] = (Return tt, [])
  /\ check_json Example.P
       (Args.mk ["http://host/p?x=1"] POST [] [] None None (Some "body.bin")
          Example.five None) [] = (Return tt, [])
  /\ given (Some "body.bin") && (given (@None string) || given (@None string))
     = false
  /\ check_file Example.P
       (Args.mk ["http://host/p?x=1"] POST [] [] None None (Some "body.bin")
          Example.five None) []
     = (Throw (logERRORWrapper "ENOENT: no such file or directory"), []).
Proof.
  split; [reflexivity|]. split; [reflexivity|].
  exact (file_conflict_unreachable Example.P
           (Args.mk ["http://host/p?x=1"] POST [] [] None None
              (Some "body.bin") Example.five None) [] [] [] eq_refl eq_refl).
Defined.

Lemma url_check_first_witness :
  List.length (Raw.positional Example.conflict_no_url) <> 1
  /\ requests (main Example.P Example.conflict_no_url) = []
  /\ exists w,
       console (main Example.P Example.conflict_no_url)
       = (w ++ ["ERROR: You must provide a url"])%list.
Proof.
  split; [discriminate|].
  exact (proj1 (url_check_first Example.P Example.conflict_no_url)
           ltac:(discriminate)).
Defined.

(** ** The request executor, in full *)

Lemma default_header_keeps (h : Obj.t hvalue) (k k' : string) (v x : hvalue) :
  Obj.get h k' = Obj.Own x ->
  Obj.get (default_header h k v) k' = Obj.Own x.
Proof.
  intros G. unfold default_header.
  destruct (String.eqb_spec k' k) as [->|N].
  - now rewrite G.
  - destruct (Obj.undefined (Obj.get h k)); [|assumption].
    now rewrite get_set_other.
Qed.

Lemma default_length_keeps (h : Obj.t hvalue) (m : Method) (n : nat)
    (k' : string) (x : hvalue) :
  Obj.get h k' = Obj.Own x ->
  Obj.get (default_length h m n) k' = Obj.Own x.
Proof.
  intros G. unfold default_length.
  destruct (String.eqb_spec k' "content-length") as [->|N].
  - now rewrite G.
  - destruct (_ && _); [|assumption]. now rewrite get_set_other.
Qed.

(** [sendRequest] case by case: the promise rejects on the read of an
    active file, or a request is attempted with the body of the active
    source as its one chunk. *)
Lemma sendRequest_cases (P : platform) (url : URL.t) (m : Method)
    (h : Obj.t hvalue) (q : Obj.t string) (body json filePath : option string)
    (t : option number) (o : list string) :
  (exists message,
      truthy body = false /\ truthy json = false /\ truthy filePath = true
      /\ readFileSync P (text filePath) = Throw message
      /\ sendRequest P url m h q body json filePath t o = (Throw message, o))
  \/ (exists ct n,
         sendRequest P url m h q body json filePath t o
         = attempt P
             (Request.mk (URL.hostname url) "80" (requestPath url q)
                match body_kind body json filePath with
                | Some _ =>
                    default_length (default_header h "content-type" ct) m n
                | None => h
                end m t [] false)
             match active_body P body json filePath with
             | Some bytes => [bytes]
             | None => []
             end o
         /\ (forall c, body_kind body json filePath = Some c -> ct = HStr c)
         /\ (forall bytes, active_body P body json filePath = Some bytes ->
             n = List.length bytes)).
Proof.
  unfold active_body, body_kind.
  destruct (truthy body) eqn:B; [|destruct (truthy json) eqn:J;
    [|destruct (truthy filePath) eqn:F]].
  - right. eexists _, _. split; [now apply sendRequest_body|].
    split; [now intros c [= <-] | now intros bytes [= <-]].
  - right. eexists _, _. split; [now apply sendRequest_json|].
    split; [now intros c [= <-] | now intros bytes [= <-]].
  - destruct (readFileSync P (text filePath)) as [file|e] eqn:R.
    + right. eexists _, _. split; [now apply sendRequest_file|].
      split; [now intros c [= <-] | now intros bytes [= <-]].
    + left. exists e. repeat split; try assumption.
      now apply sendRequest_file_fails.
  - right. exists (HStr ""), 0. split; [now apply sendRequest_no_body|].
    split; discriminate.
Qed.

(** The request [sendRequest] makes, field by field. *)
Lemma sendRequest_request (P : platform) (url : URL.t) (m : Method)
    (h : Obj.t hvalue) (q : Obj.t string) (body json filePath : option string)
    (t : option number) (o o' : list string) (r : Request.t) :
  sendRequest P url m h q body json filePath t o = (Return (Some r), o') ->
  o' = o
  /\ Request.hostname r = URL.hostname url /\ Request.port r = "80"
  /\ Request.path r = requestPath url q
  /\ Request.method r = m /\ Request.timeout r = t
  /\ Request.ended r = true
  /\ Request.written r
     = match active_body P body json filePath with
       | Some bytes => [bytes]
       | None => []
       end
  /\ exists ct n,
       Request.headers r
       = match body_kind body json filePath with
         | Some _ => default_length (default_header h "content-type" ct) m n
         | None => h
         end
       /\ (forall c, body_kind body json filePath = Some c -> ct = HStr c)
       /\ (forall bytes, active_body P body json filePath = Some bytes ->
           n = List.length bytes).
Proof.
  intros H.
  destruct (sendRequest_cases P url m h q body json filePath t o)
    as [(message & _ & _ & _ & _ & E)|(ct & n & E & Hct & Hn)];
    rewrite E in H; [discriminate|].
  unfold attempt in H. destruct (http_request P _) as [[]|message];
    [|discriminate].
  injection H as <- <-.
  destruct (written_fields
              match active_body P body json filePath with
              | Some bytes => [bytes]
              | None => []
              end
              (Request.mk (URL.hostname url) "80" (requestPath url q)
                 match body_kind body json filePath with
                 | Some _ =>
                     default_length (default_header h "content-type" ct) m n
                 | None => h
                 end m t [] false))
    as (H1 & H2 & H3 & H4 & H5 & H6 & H7).
  cbn [Request.end_ Request.hostname Request.port Request.path Request.method
       Request.timeout Request.ended Request.written Request.headers].
  rewrite H1, H2, H3, H4, H5, H6, H7. repeat split.
  exists ct, n. now repeat split.
Qed.

(** X12.  Whatever [sendRequest] is called with, the request it makes
    keeps every header the user gave with the user's value, adds no
    header besides [content-type] and [content-length], and prints
    nothing. *)
Theorem user_headers_kept (P : platform) (url : URL.t) (m : Method)
    (h : Obj.t hvalue) (q : Obj.t string) (body json filePath : option string)
    (t : option number) (o o' : list string) (r : Request.t) :
  sendRequest P url m h q body json filePath t o = (Return (Some r), o') ->
  o' = o
  /\ (forall k v, Obj.get h k = Obj.Own v ->
      Obj.get (Request.headers r) k = Obj.Own v)
  /\ (forall k, k <> "content-type" -> k <> "content-length" ->
      Obj.get (Request.headers r) k = Obj.get h k).
Proof.
  intros H. apply sendRequest_request in H
    as (-> & _ & _ & _ & _ & _ & _ & _ & ct & n & -> & _).
  split; [reflexivity|]. split.
  - intros k v G. destruct (body_kind body json filePath); [|assumption].
    now apply default_length_keeps, default_header_keeps.
  - intros k N1 N2. destruct (body_kind body json filePath); [|reflexivity].
    rewrite default_length_other by assumption.
    now apply default_header_other.
Qed.

Lemma user_headers_kept_witness :
  sendRequest Example.P (URL.mk "host" "/p" "") POST
    [("content-type", HStr "text/plain")] Obj.empty None (Some json_a1) None
    Example.five []
  = (Return
       (Some
          (Request.mk "host" "80" "/p"
             [("content-type", HStr "text/plain"); ("content-length", HNum 7)]
             POST Example.five [Utf8.encode json_a1] true)), [])
  /\ [] = @nil string
  /\ (forall k v,
         Obj.get [("content-type", HStr "text/plain")] k = Obj.Own v ->
         Obj.get
           [("content-type", HStr "text/plain"); ("content-length", HNum 7)] k
         = Obj.Own v)
  /\ (forall k, k <> "content-type" -> k <> "content-length" ->
      Obj.get [("content-type", HStr "text/plain"); ("content-length", HNum 7)]
        k
      = Obj.get [("content-type", HStr "text/plain")] k).
Proof.
  split; [reflexivity|].
  exact (user_headers_kept Example.P (URL.mk "host" "/p" "") POST
           [("content-type", HStr "text/plain")] Obj.empty None (Some json_a1)
           None Example.five [] [] _ eq_refl).
Defined.

(** X13.  The request carries the body of the active source and nothing
    else: one chunk with the UTF-8 bytes of the urlencoded or JSON
    string, or the bytes of the file, and no chunk when no source is
    active; without a [content-type] of the user the header is the one of
    that source, and without an active source the headers are the user's
    unchanged, for every method. *)
Theorem body_written (P : platform) (url : URL.t) (m : Method)
    (h : Obj.t hvalue) (q : Obj.t string) (body json filePath : option string)
    (t : option number) (o o' : list string) (r : Request.t) :
  sendRequest P url m h q body json filePath t o = (Return (Some r), o') ->
  Request.written r
  = match active_body P body json filePath with
    | Some bytes => [bytes]
    | None => []
    end
  /\ Request.ended r = true
  /\ (Obj.get h "content-type" = Obj.Undefined ->
      Obj.get (Request.headers r) "content-type"
      = match body_kind body json filePath with
        | Some ct => Obj.Own (HStr ct)
        | None => Obj.Undefined
        end)
  /\ (body_kind body json filePath = None -> Request.headers r = h).
Proof.
  intros H. apply sendRequest_request in H
    as (_ & _ & _ & _ & _ & _ & He & Hw & ct & n & Hh & Hct & _).
  split; [assumption|]. split; [assumption|]. rewrite Hh. split.
  - intros U. destruct (body_kind body json filePath) as [c|]; [|assumption].
    rewrite (Hct c eq_refl), default_length_other by discriminate.
    now apply default_header_fresh.
  - now intros ->.
Qed.

Lemma body_written_witness :
  sendRequest Example.P_hello (URL.mk "host" "/p" "") PUT Obj.empty Obj.empty
    None None (Some "hello.txt") Example.five []
  = (Return
       (Some
          (Request.mk "host" "80" "/p"
             [("content-type", HStr "application/octet-stream");
              ("content-length", HNum 5)]
             PUT Example.five [Example.hello] true)), [])
  /\ [Example.hello] = [Example.hello]
  /\ true = true
  /\ (Obj.get (A := hvalue) Obj.empty "content-type" = Obj.Undefined ->
      Obj.get
        [("content-type", HStr "application/octet-stream");
         ("content-length", HNum 5)] "content-type"
      = Obj.Own (HStr "application/octet-stream"))
  /\ (body_kind None None (Some "hello.txt") = None ->
      [("content-type", HStr "application/octet-stream");
       ("content-length", HNum 5)] = @Obj.empty hvalue).
Proof.
  split; [reflexivity|].
  exact (body_written Example.P_hello (URL.mk "host" "/p" "") PUT Obj.empty
           Obj.empty None None (Some "hello.txt") Example.five [] [] _
           eq_refl).
Defined.



(** X15.  An invocation makes at most one request.  The request goes to
    the host of the URL on port 80, with the method and the timeout of
    the invocation, the timeout being a number; it is ended, and at most
    one chunk is written to it. *)
Theorem main_request (P : platform) (raw : Raw.t) (r : Request.t) :
  In r (requests (main P raw)) ->
  requests (main P raw) = [r]
  /\ Request.port r = "80"
  /\ Request.method r = Raw.method raw
  /\ Request.timeout r = Raw.timeout raw
  /\ (exists t, Request.timeout r = Some (Finite t))
  /\ Request.ended r = true
  /\ List.length (Request.written r) <= 1
  /\ exists u url,
       Raw.positional raw = [u] /\ URL_new P u = Return url
       /\ Request.hostname r = URL.hostname url.
Proof.
  destruct (setupYargs P raw []) as [[args|e] out] eqn:E.
  - assert (exists t, Raw.timeout raw = Some (Finite t)) as Ht
      by now apply setupYargs_pass_only_if in E as (_ & _ & _ & Ht).
    apply main_attempts in E
      as (u & url & options & chunks & Ep & Eu & Hh & Hp & _ & Hm & Ht' & Hw
          & Hl & Em).
    rewrite Em. destruct (http_request P options) as [[]|message];
      cbn [requests]; [intros [<-|[]] | intros []].
    destruct (written_fields chunks options)
      as (_ & H2 & H3 & _ & H5 & H6 & H7).
    cbn [Request.end_ Request.hostname Request.port Request.method
         Request.timeout Request.ended Request.written].
    rewrite H2, H3, H5, H6, H7, Hw.
    split; [reflexivity|]. repeat split; try assumption.
    + now rewrite Ht'.
    + exists u, url. now repeat split.
  - unfold main. rewrite E. intros [].
Qed.

Lemma main_request_witness :
  In (Request.mk "host" "80" "/p"
        [("content-type", HStr "application/json"); ("content-length", HNum 7)]
        POST Example.five [Utf8.encode json_a1] true)
     (requests (main Example.P Example.with_json))
  /\ requests (main Example.P Example.with_json)
     = [Request.mk "host" "80" "/p"
          [("content-type", HStr "application/json");
           ("content-length", HNum 7)]
          POST Example.five [Utf8.encode json_a1] true].
Proof.
  assert (In (Request.mk "host" "80" "/p"
                [("content-type", HStr "application/json");
                 ("content-length", HNum 7)]
                POST Example.five [Utf8.encode json_a1] true)
             (requests (main Example.P Example.with_json))) as H
    by (left; reflexivity).
  split; [exact H|].
  exact (proj1 (main_request Example.P Example.with_json _ H)).
Defined.

(** ** The response handler, over the events *)

Lemma on_response_data (res : Response.t) (chunks : list (list byte))
    (rawBody : list (list byte)) (events : list event) (out : list string) :
  on_response res rawBody (map Data chunks ++ events) out
  = on_response res (rawBody ++ chunks) events out.
Proof.
  revert rawBody. induction chunks as [|c chunks IH]; intros rawBody.
  - cbn. now rewrite app_nil_r.
  - cbn [map app on_response]. rewrite IH. now rewrite <- app_assoc.
Qed.

(** X16.  However the bytes of the body are cut into chunks, nothing is
    printed while they arrive, and at the end of the stream the response
    is rendered once, with the whole body decoded as one text: the lines
    are the empty line, the banner, the method line, the status line, the
    headers line, one line for each header and the body line. *)
Theorem exchange_rendering (res : Response.t) (chunks : list (list byte))
    (body : string) (out : list string) :
  List.concat chunks = Utf8.encode body ->
  on_response res [] (map Data chunks) out = Some out
  /\ on_response res [] (map Data chunks ++ [End_]) out
     = Some (out ++ rendering res body)%list.
Proof.
  intros C. split.
  - rewrite <- (app_nil_r (map Data chunks)), on_response_data. reflexivity.
  - rewrite on_response_data. cbn [app on_response].
    destruct (on_end_lines res chunks body) as (print & -> & Hp).
    + rewrite C. apply decode_encode.
    + rewrite Hp. reflexivity.
Qed.

Lemma exchange_rendering_witness :
  List.concat [ [Byte.x68; Byte.x65]; []; [Byte.x6c; Byte.x6c; Byte.x6f] ]
  = Utf8.encode "hello"
  /\ on_response (Response.of_client 404 "Not Found" [("server", "x")]) []
       (map Data [ [Byte.x68; Byte.x65]; []; [Byte.x6c; Byte.x6c; Byte.x6f] ])
       []
     = Some []
  /\ on_response (Response.of_client 404 "Not Found" [("server", "x")]) []
       (map Data [ [Byte.x68; Byte.x65]; []; [Byte.x6c; Byte.x6c; Byte.x6f] ]
        ++ [End_]) []
     = Some ([] ++ rendering
                     (Response.of_client 404 "Not Found" [("server", "x")])
                     "hello")%list.
Proof.
  split; [reflexivity|].
  exact (exchange_rendering
           (Response.of_client 404 "Not Found" [("server", "x")])
           [ [Byte.x68; Byte.x65]; []; [Byte.x6c; Byte.x6c; Byte.x6f] ]
           "hello" [] eq_refl).
Defined.

(** ** The urlencoded pattern *)

Lemma query_text_cons (p : string * string) (pairs : list (string * string)) :
  query_text (p :: pairs) = pair_text p ++ more_pairs pairs.
Proof.
  revert p. induction pairs as [|p' pairs IH]; intros p.
  - cbn. now rewrite append_empty_r.
  - unfold query_text. cbn [map]. rewrite concat_cons by discriminate.
    change (String.concat "&" (pair_text p' :: map pair_text pairs))
      with (query_text (p' :: pairs)).
    rewrite IH. reflexivity.
Qed.

Lemma class_separators :
  class_char "=" = false /\ class_char "&" = false.
Proof. split; reflexivity. Qed.

Lemma run_accepts (s : string) :
  (urlencoded_run Value s = true ->
   exists v pairs,
     class_string v = true /\ Forall urlencoded_pair pairs
     /\ s = v ++ more_pairs pairs)
  /\ (urlencoded_run Key s = true ->
      exists k v pairs,
        class_string k = true /\ class_string v = true
        /\ Forall urlencoded_pair pairs
        /\ s = k ++ "=" ++ v ++ more_pairs pairs)
  /\ (urlencoded_run KeyStart s = true ->
      exists k v pairs,
        k <> "" /\ class_string k = true /\ class_string v = true
        /\ Forall urlencoded_pair pairs
        /\ s = k ++ "=" ++ v ++ more_pairs pairs).
Proof.
  induction s as [|a s (IHv & IHk & IHs)].
  - repeat split; try discriminate.
    intros _. exists "", []. repeat split. constructor.
  - cbn [urlencoded_run]. destruct (class_char a) eqn:Ca; repeat split.
    + intros H. destruct (IHv H) as (v & pairs & Cv & F & ->).
      exists (String a v), pairs. cbn. rewrite Ca, Cv. repeat split.
      assumption.
    + intros H. destruct (IHk H) as (k & v & pairs & Ck & Cv & F & ->).
      exists (String a k), v, pairs. cbn [class_string]. rewrite Ca, Ck.
      repeat split; assumption.
    + intros H. destruct (IHk H) as (k & v & pairs & Ck & Cv & F & ->).
      exists (String a k), v, pairs. cbn [class_string]. rewrite Ca, Ck.
      repeat split; try assumption. discriminate.
    + destruct (Ascii.eqb_spec a "&") as [->|]; [|discriminate].
      intros H. destruct (IHs H) as (k & v & pairs & Nk & Ck & Cv & F & ->).
      exists "", ((k, v) :: pairs). repeat split.
      * constructor; [now repeat split | assumption].
      * cbn. unfold pair_text. cbn [fst snd]. string_normal. reflexivity.
    + destruct (Ascii.eqb_spec a "=") as [->|]; [|discriminate].
      intros H. destruct (IHv H) as (v & pairs & Cv & F & ->).
      exists "", v, pairs. now repeat split.
    + discriminate.
Qed.

Lemma run_class (st : rx_state) (k s : string) :
  st <> KeyStart -> class_string k = true ->
  urlencoded_run st (k ++ s) = urlencoded_run st s.
Proof.
  intros N. induction k as [|a k IH]; [reflexivity|].
  cbn [class_string]. intros C. apply andb_prop in C as [Ca Ck].
  cbn [append urlencoded_run]. destruct st; [congruence| |]; rewrite Ca; auto.
Qed.

Lemma run_more_pairs (pairs : list (string * string)) :
  Forall urlencoded_pair pairs ->
  urlencoded_run Value (more_pairs pairs) = true.
Proof.
  induction 1 as [|[k v] pairs (Nk & Ck & Cv) F IH]; [reflexivity|].
  cbn [fst snd] in *. cbn [more_pairs]. unfold pair_text. cbn [fst snd].
  destruct k as [|a k]; [congruence|].
  cbn [class_string] in Ck. apply andb_prop in Ck as [Ca Ck].
  string_normal. cbn [urlencoded_run]. cbn. rewrite Ca.
  rewrite (run_class Key k) by (discriminate || assumption).
  cbn [urlencoded_run]. cbn.
  now rewrite (run_class Value v) by (discriminate || assumption).
Qed.

(** X17.  The urlencoded pattern accepts exactly the texts
    [k1=v1&...&kn=vn] with at least one pair, non-empty keys, and keys and
    values made of word characters, hyphens and percent signs. *)
Theorem urlencoded_pattern_language (s : string) :
  urlencodedRegex_test s = true
  <-> exists pairs,
        pairs <> [] /\ Forall urlencoded_pair pairs /\ s = query_text pairs.
Proof.
  unfold urlencodedRegex_test. split.
  - intros H. apply run_accepts in H
      as (k & v & pairs & Nk & Ck & Cv & F & ->).
    exists ((k, v) :: pairs). split; [discriminate|]. split.
    + constructor; [now repeat split | assumption].
    + rewrite query_text_cons. unfold pair_text. cbn [fst snd].
      string_normal. reflexivity.
  - intros (pairs & Hn & F & ->).
    destruct pairs as [|[k v] pairs]; [congruence|].
    inversion F as [|? ? (Nk & Ck & Cv) F']; subst. cbn [fst snd] in *.
    rewrite query_text_cons. unfold pair_text. cbn [fst snd].
    destruct k as [|a k]; [congruence|].
    cbn [class_string] in Ck. apply andb_prop in Ck as [Ca Ck].
    string_normal. cbn [urlencoded_run]. rewrite Ca.
    rewrite (run_class Key k) by (discriminate || assumption).
    cbn [urlencoded_run]. cbn.
    rewrite (run_class Value v) by (discriminate || assumption).
    now apply run_more_pairs.
Qed.

(** ** The order of enumeration *)

Lemma insert_sorted_permutation {A} (p : string * A) (l : list (string * A)) :
  Permutation (Obj.insert_sorted p l) (p :: l).
Proof.
  induction l as [|q l IH]; cbn; [reflexivity|].
  destruct (_ <=? _)%N; [reflexivity|].
  rewrite IH. apply perm_swap.
Qed.

Lemma sort_indices_permutation {A} (l : list (string * A)) :
  Permutation (Obj.sort_indices l) l.
Proof.
  induction l as [|p l IH]; cbn; [reflexivity|].
  rewrite insert_sorted_permutation. now constructor.
Qed.

Lemma entries_permutation {A} (o : Obj.t A) : Permutation (Obj.entries o) o.
Proof.
  unfold Obj.entries. rewrite sort_indices_permutation.
  induction o as [|p o IH]; cbn; [reflexivity|].
  destruct (Obj.is_index (fst p)); cbn.
  - now constructor.
  - rewrite <- Permutation_middle. now constructor.
Qed.

Lemma entries_no_index {A} (o : Obj.t A) :
  Forall (fun p => Obj.is_index (fst p) = false) o -> Obj.entries o = o.
Proof.
  intros F. unfold Obj.entries.
  assert (filter (fun p : string * A => Obj.is_index (fst p)) o = []
          /\ filter (fun p : string * A => negb (Obj.is_index (fst p))) o = o)
    as [-> ->]; [|reflexivity].
  induction F as [|p o Fx F [IH1 IH2]]; [now split|].
  cbn [filter]. rewrite Fx. cbn. now rewrite IH1, IH2.
Qed.

(** X18.  The path lists every pair of the mapping exactly once: the
    pairs after the [?] are a rearrangement of the properties of the
    mapping, and they are the properties in the order of their creation
    when no key is an array index. *)
Theorem path_lists_every_pair (url : URL.t) (queries : Obj.t string) :
  Permutation (Obj.entries queries) queries
  /\ requestPath url queries
     = URL.pathname url ++ query_suffix (Obj.entries queries)
  /\ (Forall (fun p => Obj.is_index (fst p) = false) queries ->
      requestPath url queries = URL.pathname url ++ query_suffix queries).
Proof.
  split; [apply entries_permutation|].
  split; [apply requestPath_eq|].
  intros F. now rewrite requestPath_eq, entries_no_index.
Qed.

Lemma path_lists_every_pair_witness :
  Forall (fun p : string * string => Obj.is_index (fst p) = false)
    [("b", "1"); ("a", "2")]
  /\ requestPath (URL.mk "host" "/p" "") [("b", "1"); ("a", "2")]
     = "/p" ++ query_suffix [("b", "1"); ("a", "2")].
Proof.
  assert (Forall (fun p : string * string => Obj.is_index (fst p) = false)
            [("b", "1"); ("a", "2")]) as F by (repeat constructor).
  split; [exact F|].
  exact (proj2 (proj2 (path_lists_every_pair (URL.mk "host" "/p" "")
                         [("b", "1"); ("a", "2")])) F).
Defined.

Example path_index_keys_first :
  forall out, exists queries,
    coerce_queries ["b=1&10=x&a=2&9=y"] out = (Return queries, out)
    /\ requestPath (URL.mk "host" "/p" "") queries = "/p?9=y&10=x&b=1&a=2".
Proof. intros out. eexists. split; reflexivity. Qed.

(** X19.  Two headers with one key up to letter case, the key not being
    a name of [Object.prototype] and no other header having it: the
    mapping holds the value of the second, and the overwrite warning for
    the key is printed exactly once, whatever the other headers are. *)
Theorem header_overwritten_once (k : string) (l1 l2 l3 : list string)
    (k1 v1 k2 v2 : string) (o : list string) :
  Obj.inherited k = false ->
  free_of ":" k1 -> Str.toLowerCase k1 = k ->
  free_of ":" k2 -> Str.toLowerCase k2 = k ->
  Forall (fun x => header_key x <> Some k) (l1 ++ l2 ++ l3) ->
  exists h w,
    coerce_headers
      (l1 ++ [k1 ++ ":" ++ v1] ++ l2 ++ [k2 ++ ":" ++ v2] ++ l3) o
    = (Return h, (o ++ w)%list)
    /\ Obj.get h k = Obj.Own (HStr v2)
    /\ overwrite_warnings k w = 1.
Proof.
  intros Hk I1 L1 I2 L2 F.
  apply Forall_app in F as [F1 F]. apply Forall_app in F as [F2 F3].
  now apply overwrite_once.
Qed.

Lemma header_overwritten_once_witness :
  Obj.inherited "content-type" = false
  /\ free_of ":" "Content-Type"
  /\ Str.toLowerCase "Content-Type" = "content-type"
  /\ free_of ":" "content-type"
  /\ Str.toLowerCase "content-type" = "content-type"
  /\ exists h w,
       coerce_headers
         (["Accept:*/*"] ++ ["Content-Type" ++ ":" ++ "a"] ++ ["oops"]
          ++ ["content-type" ++ ":" ++ "b"] ++ []) []
       = (Return h, ([] ++ w)%list)
       /\ Obj.get h "content-type" = Obj.Own (HStr "b")
       /\ overwrite_warnings "content-type" w = 1.
Proof.
  split; [reflexivity|]. split; [reflexivity|]. split; [reflexivity|].
  split; [reflexivity|]. split; [reflexivity|].
  apply (header_overwritten_once "content-type" ["Accept:*/*"] ["oops"] []
           "Content-Type" "a" "content-type" "b" []);
    try reflexivity.
  repeat constructor; discriminate.
Defined.

(** ** Requests and validation *)

(** X20.  A request is made only by an invocation that passes validation
    and whose options [http.request] accepts: the request is then those
    options with at most one chunk written, ended, and the console holds
    the lines of validation and nothing more. *)
Theorem request_made_only_if (P : platform) (raw : Raw.t) (r : Request.t) :
  requests (main P raw) = [r] ->
  (exists args, setupYargs P raw [] = (Return args, console (main P raw)))
  /\ exists options chunks,
       http_request P options = Return tt
       /\ Request.written options = []
       /\ List.length chunks <= 1
       /\ r = Request.end_ (fold_left Request.write chunks options).
Proof.
  intros Hr. destruct (setupYargs P raw []) as [[args|e] out] eqn:E.
  - apply main_attempts in E
      as (u & url & options & chunks & _ & _ & _ & _ & _ & _ & _ & Hw & Hl
          & Em).
    rewrite Em in *. destruct (http_request P options) as [[]|message] eqn:Eh;
      [|discriminate Hr].
    injection Hr as <-. split; [now exists args|].
    exists options, chunks. now repeat split.
  - unfold main in Hr. rewrite E in Hr. discriminate Hr.
Qed.

Lemma request_made_only_if_witness :
  requests (main Example.P Example.with_json)
  = [Request.mk "host" "80" "/p"
       [("content-type", HStr "application/json"); ("content-length", HNum 7)]
       POST Example.five [Utf8.encode json_a1] true]
  /\ (exists args,
         setupYargs Example.P Example.with_json []
         = (Return args, console (main Example.P Example.with_json)))
  /\ exists options chunks,
       http_request Example.P options = Return tt
       /\ Request.written options = []
       /\ List.length chunks <= 1
       /\ Request.mk "host" "80" "/p"
            [("content-type", HStr "application/json");
             ("content-length", HNum 7)]
            POST Example.five [Utf8.encode json_a1] true
          = Request.end_ (fold_left Request.write chunks options).
Proof.
  split; [reflexivity|].
  exact (request_made_only_if Example.P Example.with_json _ eq_refl).
Defined.

(** ** Malformed fields are skipped *)

(** X21.  A header without a colon is skipped: the mapping is the one of
    the other headers, and the console that of the other headers with
    the line [Invalid header] for it in its place. *)
Theorem invalid_header_skipped (l1 l2 : list string) (x : string) :
  free_of ":" x ->
  exists h w1 w2,
    (forall o,
        coerce_headers (l1 ++ l2) o = (Return h, (o ++ w1 ++ w2)%list))
    /\ (forall o,
           coerce_headers (l1 ++ [x] ++ l2) o
           = (Return h,
              (o ++ w1 ++ [("WARNING: Invalid header " ++ x)%string] ++ w2)
              %list)).
Proof.
  intros F. unfold coerce_headers.
  destruct (headers_loop_uniform l1 Obj.empty) as (h1 & w1 & E1).
  destruct (headers_loop_uniform l2 h1) as (h2 & w2 & E2).
  exists h2, w1, w2. split; intros o.
  - rewrite for_of_app, (bind_Return_l _ _ _ _ _ (E1 o)), E2.
    now rewrite app_assoc.
  - rewrite for_of_app, (bind_Return_l _ _ _ _ _ (E1 o)).
    cbn [app for_of].
    assert (headers_step h1 x (o ++ w1)%list
            = (Return h1,
               ((o ++ w1) ++ [("WARNING: Invalid header " ++ x)%string])%list))
      as Ex.
    { unfold headers_step. unfold free_of in F. now rewrite F. }
    rewrite (bind_Return_l _ _ _ _ _ Ex), E2.
    now rewrite <- !app_assoc.
Qed.

Lemma invalid_header_skipped_witness :
  free_of ":" "oops"
  /\ exists h w1 w2,
       (forall o,
           coerce_headers (["a:1"; "A:2"] ++ ["b:3"]) o
           = (Return h, (o ++ w1 ++ w2)%list))
       /\ (forall o,
              coerce_headers (["a:1"; "A:2"] ++ ["oops"] ++ ["b:3"]) o
              = (Return h,
                 (o ++ w1 ++ [("WARNING: Invalid header " ++ "oops")%string]
                  ++ w2)%list)).
Proof.
  split; [reflexivity|].
  exact (invalid_header_skipped ["a:1"; "A:2"] ["b:3"] "oops" eq_refl).
Defined.

(** X22.  A query part without an equals sign is skipped: the mapping is
    the one of the other query strings, and the console theirs with the
    line [Invalid query parameter] for the part in its place. *)
Theorem invalid_query_skipped (qs1 qs2 : list string) (x : string) :
  free_of "=" x -> free_of "&" x ->
  exists q w1 w2,
    (forall o,
        coerce_queries (qs1 ++ qs2) o = (Return q, (o ++ w1 ++ w2)%list))
    /\ (forall o,
           coerce_queries (qs1 ++ [x] ++ qs2) o
           = (Return q,
              (o ++ w1 ++ [("WARNING: Invalid query parameter " ++ x)%string]
               ++ w2)%list)).
Proof.
  intros F Fa. unfold coerce_queries.
  destruct (queries_loop_uniform (query_parts qs1) Obj.empty)
    as (q1 & w1 & E1).
  destruct (queries_loop_uniform (query_parts qs2) q1) as (q2 & w2 & E2).
  exists q2, w1, w2. split; intros o; rewrite coerce_queries_parts.
  - unfold query_parts. rewrite flat_map_app. fold (query_parts qs1).
    fold (query_parts qs2).
    rewrite for_of_app, (bind_Return_l _ _ _ _ _ (E1 o)), E2.
    now rewrite app_assoc.
  - unfold query_parts. rewrite !flat_map_app. fold (query_parts qs1).
    fold (query_parts qs2). cbn [flat_map]. rewrite (split_free _ _ Fa).
    rewrite for_of_app, (bind_Return_l _ _ _ _ _ (E1 o)).
    cbn [app for_of].
    assert (queries_step q1 x (o ++ w1)%list
            = (Return q1,
               ((o ++ w1)
                ++ [("WARNING: Invalid query parameter " ++ x)%string])%list))
      as Ex.
    { unfold queries_step. unfold free_of in F. now rewrite F. }
    rewrite (bind_Return_l _ _ _ _ _ Ex), E2.
    now rewrite <- !app_assoc.
Qed.

Lemma invalid_query_skipped_witness :
  free_of "=" "flag" /\ free_of "&" "flag"
  /\ exists q w1 w2,
       (forall o,
           coerce_queries (["a=1"] ++ ["b=2&a=3"]) o
           = (Return q, (o ++ w1 ++ w2)%list))
       /\ (forall o,
              coerce_queries (["a=1"] ++ ["flag"] ++ ["b=2&a=3"]) o
              = (Return q,
                 (o ++ w1
                  ++ [("WARNING: Invalid query parameter " ++ "flag")%string]
                  ++ w2)%list)).
Proof.
  split; [reflexivity|]. split; [reflexivity|].
  exact (invalid_query_skipped ["a=1"] ["b=2&a=3"] "flag" eq_refl eq_refl).
Defined.
